(** * Undirected graphs (week01_undirectedgraphs.py)

    A shallow embedding of the adjacency-list graph [Graph], of its
    matrix-backed subclass [AdjMatrixGraph] and of the edge-list reader
    [read_array_of_edges], followed by the properties of the
    specification that concern them.

    Conventions of the embedding:
    - Python integers are [Z]; text is [string], one [ascii] per code
      point, so the embedding covers text whose code points are below 256.
    - A raised exception is a value of [exn]; a computation that may
      raise returns a [result].
    - A method that mutates [self] is a function from the object before
      the call to the outcome and the object after it ([method]); the
      object is returned on the exceptional path too, so what a failed
      call has already written stays visible.
    - The methods that [AdjMatrixGraph] overrides are the fields of the
      class [GraphClass]; the inherited ones ([validate_vertex],
      [add_edge], [max_degree]) are written once, over any instance, and
      so is [load], which the subclass repeats word for word. *)

From Stdlib Require Import ZArith Lia Ascii.
From stdpp Require Import base numbers list strings gmap.

Local Open Scope Z_scope.

(** ** Exceptions and results *)

(** The text of a [ValueError], by the place that raises it. *)
Inductive message : Type :=
  | MustBeNonNegative
      (* "Number of vertices must be non negative" (the reader, for V and for E) *)
  | NotBetween (v V : Z)
      (* f"Vertex {v} is not between 0 and {self.V-1}" *)
  | InvalidLiteral (s : string)
      (* int(): "invalid literal for int() with base 10: ..." *)
  | NotEnoughValues (got : nat)
      (* "not enough values to unpack (expected 2, got ...)" *)
  | TooManyValues
      (* "too many values to unpack (expected 2)" *)
  | NegativeDimensions.
      (* numpy.zeros: "negative dimensions are not allowed" *)

Inductive exn : Type :=
  | ValueError (m : message)
  | IndexError
  | FileNotFoundError.

Inductive result (A : Type) : Type :=
  | Return (a : A)
  | Raise (e : exn).
Arguments Return {A} a.
Arguments Raise {A} e.

#[global] Instance result_ret : MRet result := @Return.
#[global] Instance result_bind : MBind result := λ A B f m,
  match m with
  | Return a => f a
  | Raise e => Raise e
  end.

(** A method of an object of type [S]: outcome and object after the call. *)
Definition method (S A : Type) : Type := S → result A * S.

#[global] Instance method_ret {S} : MRet (method S) := λ A a s, (Return a, s).
#[global] Instance method_bind {S} : MBind (method S) := λ A B f m s,
  match m s with
  | (Return a, s') => f a s'
  | (Raise e, s') => (Raise e, s')
  end.

(** A step that only reads the object, and one that only writes it. *)
Definition reads {S A} (f : S → result A) : method S A := λ s, (f s, s).
Definition writes {S} (f : S → S) : method S unit := λ s, (Return (), f s).

(** ** Builtins *)

(** [range(n)]: 0, 1, ..., n-1; empty when [n <= 0]. *)
Definition range (n : Z) : list Z := seqZ 0 n.

(** Position of the index [i] in a sequence of length [len]: Python and
    numpy count a negative index from the end and raise [IndexError]
    outside [-len, len). *)
Definition index (len : nat) (i : Z) : result nat :=
  if (0 <=? i) && (i <? Z.of_nat len) then Return (Z.to_nat i)
  else if (- Z.of_nat len <=? i) && (i <? 0) then Return (Z.to_nat (i + Z.of_nat len))
  else Raise IndexError.

(** [l[i]] *)
Definition getitem {A} (l : list A) (i : Z) : result A :=
  k ← index (length l) i;
  match l !! k with
  | Some x => Return x
  | None => Raise IndexError
  end.

Definition code (c : ascii) : Z := Z.of_N (N_of_ascii c).

(** [str.isspace] on one code point below 256. *)
Definition isspace (c : ascii) : bool :=
  let n := code c in
  ((9 <=? n) && (n <=? 13)) || ((28 <=? n) && (n <=? 32)) || (n =? 133) || (n =? 160).

(** The whitespace [int] skips around a literal: the C locale's blanks,
    and the two non-ASCII spaces below 256, which it first turns into
    blanks. *)
Definition int_space (c : ascii) : bool :=
  let n := code c in
  ((9 <=? n) && (n <=? 13)) || (n =? 32) || (n =? 133) || (n =? 160).

Definition isdigit (c : ascii) : bool :=
  let n := code c in (48 <=? n) && (n <=? 57).

Fixpoint skip_space (s : string) : string :=
  match s with
  | String c s' => if int_space c then skip_space s' else s
  | EmptyString => EmptyString
  end.

(** The digits of a literal, single underscores allowed between them:
    the value read so far and the text after the last digit. *)
Fixpoint scan_digits (underscore : bool) (acc : Z) (s : string) : option (Z * string) :=
  match s with
  | String c s' =>
      if isdigit c then scan_digits false (10 * acc + (code c - 48)) s'
      else if Ascii.eqb c "_" then
        if underscore then None else scan_digits true acc s'
      else if underscore then None else Some (acc, s)
  | EmptyString => if underscore then None else Some (acc, EmptyString)
  end.

Definition unsigned_literal (s : string) : option Z :=
  match s with
  | String c _ =>
      if isdigit c then
        match scan_digits false 0 s with
        | Some (n, rest) =>
            match skip_space rest with
            | EmptyString => Some n
            | _ => None
            end
        | None => None
        end
      else None
  | EmptyString => None
  end.

(** [int(s)] for a string [s]: blanks, an optional sign, decimal digits,
    blanks. (The interpreter's limit on the number of digits is not
    modelled.) *)
Definition int (s : string) : result Z :=
  let lit :=
    match skip_space s with
    | String "-" s' => Z.opp <$> unsigned_literal s'
    | String "+" s' => unsigned_literal s'
    | s' => unsigned_literal s'
    end in
  match lit with
  | Some n => Return n
  | None => Raise (ValueError (InvalidLiteral s))
  end.

(** [s.split()]: the maximal runs of non-blank characters. [tok] is the
    run being read. *)
Fixpoint split_from (tok : string) (s : string) : list string :=
  match s with
  | String c s' =>
      if isspace c then
        match tok with
        | EmptyString => split_from EmptyString s'
        | _ => tok :: split_from EmptyString s'
        end
      else split_from (tok +:+ String c EmptyString) s'
  | EmptyString =>
      match tok with
      | EmptyString => []
      | _ => [tok]
      end
  end.

Definition split (s : string) : list string := split_from EmptyString s.

(** ** Text files *)

Definition LF : ascii := ascii_of_nat 10.
Definition CR : ascii := ascii_of_nat 13.

(** [open(filename, "r")] reads with universal newlines: "\r\n" and a
    lone "\r" arrive as "\n". *)
Fixpoint universal_newlines (s : string) : string :=
  match s with
  | String c s' =>
      if Ascii.eqb c CR then
        match s' with
        | String d s'' =>
            if Ascii.eqb d LF then String LF (universal_newlines s'')
            else String LF (universal_newlines s')
        | EmptyString => String LF EmptyString
        end
      else String c (universal_newlines s')
  | EmptyString => EmptyString
  end.

(** [f.readline()] on the text not yet read: the line with its newline
    (the empty string at the end of the file) and the text left. *)
Fixpoint readline (f : string) : string * string :=
  match f with
  | String c f' =>
      if Ascii.eqb c LF then (String c EmptyString, f')
      else let '(line, rest) := readline f' in (String c line, rest)
  | EmptyString => (EmptyString, EmptyString)
  end.

(** The files that exist, by name, with their decoded contents. *)
Definition filesystem : Type := string → option string.

(** ** read_array_of_edges *)

(** [v, w = map(int, tokens)]: the iterator is consumed one item at a
    time, so a third token is converted before the unpacking fails. *)
Definition unpack_edge (tokens : list string) : result (Z * Z) :=
  match tokens with
  | [] => Raise (ValueError (NotEnoughValues 0))
  | a :: tokens1 =>
      v ← int a;
      match tokens1 with
      | [] => Raise (ValueError (NotEnoughValues 1))
      | b :: tokens2 =>
          w ← int b;
          match tokens2 with
          | [] => Return (v, w)
          | c :: _ => _ ← int c; Raise (ValueError TooManyValues)
          end
      end
  end.

(** The loop [for _ in range(E)] over the lines still to read. *)
Fixpoint read_edges (rng : list Z) (f : string) (edges : list (Z * Z))
    : result (list (Z * Z)) :=
  match rng with
  | [] => Return edges
  | _ :: rng' =>
      let '(line, f') := readline f in
      e ← unpack_edge (split line);
      read_edges rng' f' (edges ++ [e])
  end.

Definition read_array_of_edges (fs : filesystem) (filename : string)
    : result (list (Z * Z) * Z) :=
  match fs filename with
  | None => Raise FileNotFoundError
  | Some content =>
      let f := universal_newlines content in
      let '(line, f) := readline f in
      V ← int line;
      if V <? 0 then Raise (ValueError MustBeNonNegative) else
      let '(line, f) := readline f in
      E ← int line;
      if E <? 0 then Raise (ValueError MustBeNonNegative) else
      edges ← read_edges (range E) f [];
      Return (edges, V)
  end.

(** ** class Graph *)

(** An instance: [self.V], [self.E] and [self._adj], whose
    representation [A] is the subclass's. *)
Record graph (A : Type) : Type := Build_graph { V : Z; E : Z; _adj : A }.
Arguments Build_graph {A} V E _adj.
Arguments V {A} g.
Arguments E {A} g.
Arguments _adj {A} g.

Definition set_E {A} (e : Z) (g : graph A) : graph A :=
  Build_graph (V g) e (_adj g).
Definition set_adj {A} (a : A) (g : graph A) : graph A :=
  Build_graph (V g) (E g) a.

Definition validate_vertex {A} (v : Z) : method (graph A) unit := λ g,
  if (v <? 0) || (v >=? V g) then (Raise (ValueError (NotBetween v (V g))), g)
  else (Return (), g).

(** The methods that depend on the representation of [_adj]. *)
Class GraphClass (A : Type) : Type := {
  init : Z → result (graph A);
  adj_setter : Z * Z → method (graph A) unit;
  degree : Z → method (graph A) Z;
  self_loops : method (graph A) Z;
}.

Section inherited.
Context {A : Type} `{GraphClass A}.

Definition add_edge (v w : Z) : method (graph A) unit :=
  validate_vertex v;;
  validate_vertex w;;
  writes (λ g, set_E (E g + 1) g);;
  (if bool_decide (v ≠ w) then adj_setter (w, v) else mret ());;
  adj_setter (v, w).

(** The loop of [max_degree] over the vertices left, [max] so far. *)
Fixpoint max_degree_loop (vs : list Z) (max : Z) : method (graph A) Z :=
  match vs with
  | [] => mret max
  | v :: vs' =>
      d ← degree v;
      max_degree_loop vs' (if d >? max then d else max)
  end.

Definition max_degree : method (graph A) Z := λ g,
  max_degree_loop (range (V g)) 0 g.

(** The loop of [load] over the edges left; [g] is local to [load]. *)
Fixpoint add_edges (edges : list (Z * Z)) : method (graph A) unit :=
  match edges with
  | [] => mret ()
  | edge :: edges' => add_edge edge.1 edge.2;; add_edges edges'
  end.

Definition load (fs : filesystem) (filename : string) : result (graph A) :=
  '(edges, V) ← read_array_of_edges fs filename;
  g ← init V;
  match add_edges edges g with
  | (Return _, g') => Return g'
  | (Raise e, _) => Raise e
  end.
End inherited.

(** The adjacency-list representation of the base class. *)
Module Graph.
Definition t : Type := graph (list (list Z)).

(** [self._adj = []; for _ in range(self.V): self._adj.append([])] *)
Definition __init__ (V : Z) : result t :=
  Return (Build_graph V 0 (foldl (λ adj _, adj ++ [[]]) [] (range V))).

(** [self._adj[edge[0]].append(edge[1])] *)
Definition adj_setter (edge : Z * Z) : method t unit := λ g,
  match index (length (_adj g)) edge.1 with
  | Return i => (Return (), set_adj (alter (λ row, row ++ [edge.2]) i (_adj g)) g)
  | Raise e => (Raise e, g)
  end.

(** [len(self.adj[v])] after the validation *)
Definition degree (v : Z) : method t Z :=
  validate_vertex v;;
  reads (λ g, row ← getitem (_adj g) v; Return (Z.of_nat (length row))).

(** The inner loop of [self_loops]: [for w in self.adj[v]]. *)
Fixpoint count_self (v : Z) (row : list Z) (count : Z) : Z :=
  match row with
  | [] => count
  | w :: row' => count_self v row' (if bool_decide (v = w) then count + 1 else count)
  end.

Fixpoint self_loops_loop (adj : list (list Z)) (vs : list Z) (count : Z) : result Z :=
  match vs with
  | [] => Return count
  | v :: vs' =>
      row ← getitem adj v;
      self_loops_loop adj vs' (count_self v row count)
  end.

Definition self_loops : method t Z :=
  reads (λ g, self_loops_loop (_adj g) (range (V g)) 0).

(** The shape the constructor leaves and the insertions keep: one
    container per vertex. *)
Definition wf (g : t) : Prop := length (_adj g) = Z.to_nat (V g).
End Graph.

#[global] Instance Graph_class : GraphClass (list (list Z)) :=
  {| init := Graph.__init__; adj_setter := Graph.adj_setter;
     degree := Graph.degree; self_loops := Graph.self_loops |}.

(** The subclass backed by a boolean matrix, a list of rows. *)
Module AdjMatrixGraph.
Definition t : Type := graph (list (list bool)).

(** [np.zeros((V, V), dtype=bool)] *)
Definition zeros (V : Z) : result (list (list bool)) :=
  if V <? 0 then Raise (ValueError NegativeDimensions)
  else Return (replicate (Z.to_nat V) (replicate (Z.to_nat V) false)).

(** [super().__init__(V)], then the matrix replaces the lists. *)
Definition __init__ (V : Z) : result t :=
  '(Build_graph V E _) ← Graph.__init__ V;
  m ← zeros V;
  Return (Build_graph V E m).

(** [self._adj[edge[0]][edge[1]] = True] *)
Definition adj_setter (edge : Z * Z) : method t unit := λ g,
  match
    i ← index (length (_adj g)) edge.1;
    row ← getitem (_adj g) edge.1;
    j ← index (length row) edge.2;
    Return (<[i := <[j := true]> row]> (_adj g))
  with
  | Return m => (Return (), set_adj m g)
  | Raise e => (Raise e, g)
  end.

(** [self.adj[v].sum()] after the validation *)
Definition degree (v : Z) : method t Z :=
  validate_vertex v;;
  reads (λ g, row ← getitem (_adj g) v;
              Return (Z.of_nat (length (filter (λ b, b = true) row)))).

Fixpoint self_loops_loop (adj : list (list bool)) (vs : list Z) (count : Z) : result Z :=
  match vs with
  | [] => Return count
  | v :: vs' =>
      row ← getitem adj v;
      cell ← getitem row v;
      self_loops_loop adj vs' (if cell : bool then count + 1 else count)
  end.

Definition self_loops : method t Z :=
  reads (λ g, self_loops_loop (_adj g) (range (V g)) 0).

(** The shape the constructor leaves and the writes keep: [V] rows of
    [V] cells. *)
Definition wf (g : t) : Prop :=
  length (_adj g) = Z.to_nat (V g) ∧
  Forall (λ row, length row = Z.to_nat (V g)) (_adj g).
End AdjMatrixGraph.

#[global] Instance AdjMatrixGraph_class : GraphClass (list (list bool)) :=
  {| init := AdjMatrixGraph.__init__; adj_setter := AdjMatrixGraph.adj_setter;
     degree := AdjMatrixGraph.degree; self_loops := AdjMatrixGraph.self_loops |}.

(** ** Histories *)

(** The objects a program can hold after constructing a graph with [n]
    and calling [add_edge] on it any number of times, with any arguments,
    whether the call returned or raised. *)
Inductive reachable `{GraphClass A} (n : Z) : graph A → Prop :=
  | reachable_init (g : graph A) :
      init n = Return g → reachable n g
  | reachable_add_edge (g : graph A) (v w : Z) :
      reachable n g → reachable n (add_edge v w g).2.

(** ** Vocabulary of the properties *)

(** [V] is the constructor's argument, there is one list per vertex, and
    every entry of every list is a vertex. *)
Definition adjacency_invariant (n : Z) (g : Graph.t) : Prop :=
  V g = n ∧ Graph.wf g ∧ Forall (Forall (λ x, 0 ≤ x < n)) (_adj g).

(** [m] is the largest degree of [g]: no vertex has more, some vertex has
    exactly [m] when there is a vertex, and [m] is 0 when there is none. *)
Definition is_max_degree `{GraphClass A} (g : graph A) (m : Z) : Prop :=
  (∀ v : Z, 0 ≤ v < V g → ∃ d : Z, degree v g = (Return d, g) ∧ d ≤ m) ∧
  (0 < V g → ∃ v : Z, 0 ≤ v < V g ∧ degree v g = (Return m, g)) ∧
  (V g ≤ 0 → m = 0).

(** A call [add_edge v v]. *)
Definition is_self_loop (c : Z * Z) : Prop := c.1 = c.2.
#[global] Instance is_self_loop_dec c : Decision (is_self_loop c) := _.

(** The calls of a history whose endpoints are vertices of a graph on
    [n] vertices: the calls that return. *)
Definition in_range (n : Z) (c : Z * Z) : Prop := 0 ≤ c.1 < n ∧ 0 ≤ c.2 < n.

(** The occurrences of each vertex in its own list, summed over the
    lists [adj], the first of which is the list of [k]. *)
Fixpoint diagonal (k : Z) (adj : list (list Z)) : Z :=
  match adj with
  | [] => 0
  | row :: adj' => Z.of_nat (length (filter (λ w, k = w) row)) + diagonal (k + 1) adj'
  end.

(** Row [u] of the matrix after [add_edge v w] has returned: the cell of
    [w] is set in the row of [v], the cell of [v] in the row of [w]. *)
Definition set_cells (v w u : nat) (row : list bool) : list bool :=
  if decide (u = v) then <[w := true]> row
  else if decide (u = w) then <[v := true]> row
  else row.

(** The diagonal cell of vertex [u]. *)
Definition diag (adj : list (list bool)) (u : Z) : bool :=
  match adj !! Z.to_nat u with
  | Some row => default false (row !! Z.to_nat u)
  | None => false
  end.

(** A line that holds one edge: two tokens, both integer literals. *)
Definition edge_line (line : string) (e : Z * Z) : Prop :=
  ∃ a b : string, split line = [a; b] ∧ int a = Return e.1 ∧ int b = Return e.2.

(** [edge_lines k f edges]: the next [k] lines of [f] are edge lines and
    hold [edges], in this order. *)
Inductive edge_lines : nat → string → list (Z * Z) → Prop :=
  | edge_lines_O (f : string) : edge_lines 0 f []
  | edge_lines_S (k : nat) (f : string) (e : Z * Z) (edges : list (Z * Z)) :
      edge_line (readline f).1 e →
      edge_lines k (readline f).2 edges →
      edge_lines (S k) f (e :: edges).

(** The exceptions of [int] and of the unpacking of a line. *)
Definition parse_error (x : exn) : Prop :=
  match x with
  | ValueError (InvalidLiteral _) | ValueError (NotEnoughValues _)
  | ValueError TooManyValues => True
  | _ => False
  end.

(** The text whose lines are [ls], each ended by a newline. *)
Definition unlines (ls : list string) : string :=
  foldr (λ l s, l +:+ String LF s) EmptyString ls.

(** [edges_added edges g g']: calling [add_edge] on [g] once for each
    pair of [edges], in order, returns every time and leaves [g']. *)
Inductive edges_added `{GraphClass A} : list (Z * Z) → graph A → graph A → Prop :=
  | edges_added_nil (g : graph A) : edges_added [] g g
  | edges_added_cons (v w : Z) (edges : list (Z * Z)) (g g1 g2 : graph A) :
      add_edge v w g = (Return (), g1) →
      edges_added edges g1 g2 →
      edges_added ((v, w) :: edges) g g2.

(** ** Vocabulary of the further properties *)

(** What the call [add_edge c.1 c.2] appends to the list of [u]: the
    other endpoint, once also when both endpoints are [u]. *)
Definition appended (u : Z) (c : Z * Z) : list Z :=
  if decide (u = c.1) then [c.2]
  else if decide (u = c.2) then [c.1]
  else [].

(** The list of [u] after the calls [calls], all returning, on a fresh
    adjacency-list graph. *)
Definition neighbours (u : Z) (calls : list (Z * Z)) : list Z :=
  calls ≫= appended u.

(** The cell of row [u] and column [x] of a matrix. *)
Definition cell (adj : list (list bool)) (u x : Z) : bool :=
  match adj !! Z.to_nat u with
  | Some row => default false (row !! Z.to_nat x)
  | None => false
  end.

(** The sum of [degree v] over the vertices [vs]. *)
Fixpoint sum_degrees `{GraphClass A} (g : graph A) (vs : list Z) : result Z :=
  match vs with
  | [] => Return 0
  | v :: vs' =>
      d ← (degree v g).1;
      s ← sum_degrees g vs';
      Return (d + s)
  end.

(** The occurrences of [x] in a list. *)
Definition occurrences (x : Z) (row : list Z) : nat := length (filter (λ w, x = w) row).

(** The true cells of a row. *)
Definition count_true (row : list bool) : nat := length (filter (λ b, b = true) row).

(** A text that is empty or ends with a newline: every line of it is
    whole. *)
Fixpoint complete (t : string) : bool :=
  match t with
  | EmptyString => true
  | String a t' =>
      match t' with
      | EmptyString => Ascii.eqb a LF
      | _ => complete t'
      end
  end.

(** The text with every newline written as carriage return, newline (a
    file saved with DOS line ends). *)
Fixpoint crlf (s : string) : string :=
  match s with
  | EmptyString => EmptyString
  | String a s' => if Ascii.eqb a LF then String CR (String LF (crlf s')) else String a (crlf s')
  end.

(** A text that holds a carriage return. *)
Fixpoint has_cr (s : string) : bool :=
  match s with
  | EmptyString => false
  | String a s' => Ascii.eqb a CR || has_cr s'
  end.

(** ** to_networkx *)

(** [networkx.Graph], as far as [to_networkx] uses it: the adjacency of
    the nodes, a dictionary from each node to its neighbours. A node
    without neighbours is a key with no neighbour; edge and node
    attributes are not modelled (the code sets none). *)
Module nx.
Abbreviation Graph := (gmap Z (gset Z)).

(** [nx.Graph()] *)
Definition empty : Graph := ∅.

(** [G.has_edge(u, v)]: [v in G._adj[u]], false when [u] is no node. *)
Definition has_edge (G : Graph) (u v : Z) : bool :=
  match G !! u with
  | Some nbrs => bool_decide (v ∈ nbrs)
  | None => false
  end.

(** [G.add_edge(u, v)]: the nodes are added when absent, then each is
    made a neighbour of the other. *)
Definition add_edge (G : Graph) (u v : Z) : Graph :=
  let G := if decide (is_Some (G !! u)) then G else <[u := ∅]> G in
  let G := if decide (is_Some (G !! v)) then G else <[v := ∅]> G in
  let G := alter (λ nbrs, nbrs ∪ {[v]}) u G in
  alter (λ nbrs, nbrs ∪ {[u]}) v G.
End nx.

(** The body of the two loops of [to_networkx], for one [w]. *)
Definition to_networkx_edge (G : nx.Graph) (v w : Z) : nx.Graph :=
  if nx.has_edge G v w then G else nx.add_edge G v w.

Module GraphNx.
(** [for w in self.adj[v]] *)
Fixpoint to_networkx_row (v : Z) (row : list Z) (G : nx.Graph) : nx.Graph :=
  match row with
  | [] => G
  | w :: row' => to_networkx_row v row' (to_networkx_edge G v w)
  end.

Fixpoint to_networkx_loop (adj : list (list Z)) (vs : list Z) (G : nx.Graph)
    : result nx.Graph :=
  match vs with
  | [] => Return G
  | v :: vs' =>
      row ← getitem adj v;
      to_networkx_loop adj vs' (to_networkx_row v row G)
  end.

(** [Graph.to_networkx] *)
Definition to_networkx (g : Graph.t) : result nx.Graph :=
  to_networkx_loop (_adj g) (range (V g)) nx.empty.
End GraphNx.

Module AdjMatrixGraphNx.
(** [np.where(row)[0]]: the indices of the true cells, ascending; [k] is
    the index of the first cell of [row]. *)
Fixpoint where_from (k : Z) (row : list bool) : list Z :=
  match row with
  | [] => []
  | b :: row' => if b then k :: where_from (k + 1) row' else where_from (k + 1) row'
  end.

Definition np_where (row : list bool) : list Z := where_from 0 row.

Fixpoint to_networkx_loop (adj : list (list bool)) (vs : list Z) (G : nx.Graph)
    : result nx.Graph :=
  match vs with
  | [] => Return G
  | v :: vs' =>
      row ← getitem adj v;
      to_networkx_loop adj vs' (GraphNx.to_networkx_row v (np_where row) G)
  end.

(** [AdjMatrixGraph.to_networkx] *)
Definition to_networkx (g : AdjMatrixGraph.t) : result nx.Graph :=
  to_networkx_loop (_adj g) (range (V g)) nx.empty.
End AdjMatrixGraphNx.

(** The pairs [(v, w)] in the order the loops of [to_networkx] meet
    them, for the vertices [vs] with the neighbours [nbrs v]. *)
Definition pairs (nbrs : Z → list Z) (vs : list Z) : list (Z * Z) :=
  vs ≫= λ v, (λ w, (v, w)) <$> nbrs v.

(** [G] is the simple graph of the pairs [P]: [x] is a neighbour of [u]
    when [P] holds the pair in either order, and the nodes are the
    endpoints of the pairs. *)
Definition graph_of (P : list (Z * Z)) (G : nx.Graph) : Prop :=
  (∀ u x : Z, nx.has_edge G u x = true ↔ (u, x) ∈ P ∨ (x, u) ∈ P) ∧
  (∀ u : Z, is_Some (G !! u) ↔ ∃ x : Z, (u, x) ∈ P ∨ (x, u) ∈ P).

(** ** __str__ *)

(** The character of the decimal digit [d]. *)
Definition digit (d : Z) : ascii := ascii_of_nat (Z.to_nat (48 + d)).

(** The decimal digits of [n], not negative, in front of [acc]; [fuel]
    bounds their number. *)
Fixpoint digits (fuel : nat) (n : Z) (acc : string) : string :=
  match fuel with
  | O => acc
  | S fuel' =>
      let acc' := String (digit (n mod 10)) acc in
      if n <? 10 then acc' else digits fuel' (n / 10) acc'
  end.

(** [str(n)], which is what [f"{n}"] writes for an integer: the decimal
    digits, after a minus sign when [n] is negative. A number has no
    more decimal digits than binary ones. *)
Definition str (n : Z) : string :=
  if n <? 0 then String "-" (digits (S (Z.to_nat (Z.log2 (- n)))) (- n) EmptyString)
  else digits (S (Z.to_nat (Z.log2 n))) n EmptyString.

Module GraphStr.
(** [for w in self.adj[v]: s += f"{w} "] *)
Fixpoint str_row (row : list Z) (s : string) : string :=
  match row with
  | [] => s
  | w :: row' => str_row row' (s +:+ str w +:+ " ")
  end.

Fixpoint str_loop (adj : list (list Z)) (vs : list Z) (s : string) : result string :=
  match vs with
  | [] => Return s
  | v :: vs' =>
      row ← getitem adj v;
      str_loop adj vs' (str_row row (s +:+ str v +:+ ": ") +:+ String LF EmptyString)
  end.

(** [Graph.__str__] *)
Definition __str__ (g : Graph.t) : result string :=
  str_loop (_adj g) (range (V g))
    (EmptyString +:+ str (V g) +:+ " vertices, " +:+ str (E g) +:+ " edges" +:+ String LF EmptyString).
End GraphStr.

Module AdjMatrixGraphStr.
Fixpoint str_loop (adj : list (list bool)) (vs : list Z) (s : string) : result string :=
  match vs with
  | [] => Return s
  | v :: vs' =>
      row ← getitem adj v;
      str_loop adj vs'
        (GraphStr.str_row (AdjMatrixGraphNx.np_where row) (s +:+ str v +:+ ": ")
         +:+ String LF EmptyString)
  end.

(** [AdjMatrixGraph.__str__] *)
Definition __str__ (g : AdjMatrixGraph.t) : result string :=
  str_loop (_adj g) (range (V g))
    (EmptyString +:+ str (V g) +:+ " vertices, " +:+ str (E g) +:+ " edges" +:+ String LF EmptyString).
End AdjMatrixGraphStr.




(** * Properties *)

(** ** Stepping through a method *)

Lemma bind_step {S A B} (m : method S A) (f : A → method S B) (s : S) :
  (m ≫= f) s =
  match m s with
  | (Return a, s') => f a s'
  | (Raise e, s') => (Raise e, s')
  end.
Proof. reflexivity. Qed.

Lemma validate_vertex_ok {A} (g : graph A) (v : Z) :
  0 ≤ v < V g → validate_vertex v g = (Return (), g).
Proof.
  intros Hv. unfold validate_vertex.
  destruct (v <? 0) eqn:H1; [lia|].
  destruct (v >=? V g) eqn:H2; [lia|]. reflexivity.
Qed.

Lemma validate_vertex_raise {A} (g : graph A) (v : Z) :
  ¬ (0 ≤ v < V g) → validate_vertex v g = (Raise (ValueError (NotBetween v (V g))), g).
Proof.
  intros Hv. unfold validate_vertex.
  destruct (v <? 0) eqn:H1; [reflexivity|].
  destruct (v >=? V g) eqn:H2; [reflexivity|]. lia.
Qed.

Lemma index_in_range (len : nat) (i : Z) :
  0 ≤ i < Z.of_nat len → index len i = Return (Z.to_nat i).
Proof.
  intros Hi. unfold index.
  destruct (0 <=? i) eqn:H1; [|lia].
  destruct (i <? Z.of_nat len) eqn:H2; [|lia]. reflexivity.
Qed.

Lemma getitem_in_range {A} (l : list A) (i : Z) (x : A) :
  0 ≤ i → l !! Z.to_nat i = Some x → getitem l i = Return x.
Proof.
  intros Hi Hx. unfold getitem.
  rewrite index_in_range by (apply lookup_lt_Some in Hx; lia).
  simpl. rewrite Hx. reflexivity.
Qed.

(** What a failed validation leaves: the exception of the first endpoint
    that is out of range, and the object as it was. *)
Lemma add_edge_invalid `{GraphClass A} (g : graph A) (v w : Z) :
  ¬ (0 ≤ v < V g ∧ 0 ≤ w < V g) →
  add_edge v w g =
    (Raise (ValueError (NotBetween (if decide (0 ≤ v < V g) then w else v) (V g))), g).
Proof.
  intros Hvw. unfold add_edge. rewrite bind_step.
  destruct (decide (0 ≤ v < V g)) as [Hv|Hv].
  - rewrite validate_vertex_ok by done. rewrite bind_step.
    rewrite validate_vertex_raise by tauto. reflexivity.
  - rewrite validate_vertex_raise by done. reflexivity.
Qed.

(** After two successful validations [add_edge] counts the edge and
    writes the adjacency. *)
Lemma add_edge_valid `{GraphClass A} (g : graph A) (v w : Z) :
  0 ≤ v < V g → 0 ≤ w < V g →
  add_edge v w g =
    ((if bool_decide (v ≠ w) then adj_setter (w, v) else mret ());; adj_setter (v, w))
      (set_E (E g + 1) g).
Proof.
  intros Hv Hw. unfold add_edge. rewrite bind_step, validate_vertex_ok by done.
  rewrite bind_step, validate_vertex_ok by done. reflexivity.
Qed.

(** ** The adjacency-list graph *)

Module GraphFacts.

Lemma init_adj (n : Z) :
  foldl (λ (adj : list (list Z)) (_ : Z), adj ++ [[]]) [] (range n)
  = replicate (Z.to_nat n) [].
Proof.
  assert (Hgen : ∀ (l : list Z) (acc : list (list Z)),
    foldl (λ (adj : list (list Z)) (_ : Z), adj ++ [[]]) acc l
    = acc ++ replicate (length l) []).
  { induction l as [|x l IH]; intros acc; simpl.
    - by rewrite app_nil_r.
    - rewrite IH, <-app_assoc. reflexivity. }
  unfold range. rewrite Hgen, length_seqZ. reflexivity.
Qed.

Lemma init_wf (n : Z) (g : Graph.t) : Graph.__init__ n = Return g → Graph.wf g.
Proof.
  unfold Graph.__init__. intros [= <-]. unfold Graph.wf. simpl.
  rewrite init_adj, length_replicate. reflexivity.
Qed.

Lemma adj_setter_valid (g : Graph.t) (a b : Z) :
  0 ≤ a < Z.of_nat (length (_adj g)) →
  adj_setter (a, b) g =
    (Return (), set_adj (alter (λ row, row ++ [b]) (Z.to_nat a) (_adj g)) g).
Proof.
  intros Ha. cbn [adj_setter Graph_class]. unfold Graph.adj_setter. simpl. rewrite index_in_range by done. reflexivity.
Qed.

(** The object after a successful [add_edge]. *)
Lemma add_edge_run (g : Graph.t) (v w : Z) :
  Graph.wf g → 0 ≤ v < V g → 0 ≤ w < V g →
  add_edge v w g =
    (Return (),
     Build_graph (V g) (E g + 1)
       (alter (λ row, row ++ [w]) (Z.to_nat v)
          (if bool_decide (v ≠ w)
           then alter (λ row, row ++ [v]) (Z.to_nat w) (_adj g)
           else _adj g))).
Proof.
  intros Hwf Hv Hw. unfold Graph.wf in Hwf. rewrite add_edge_valid by done.
  rewrite bind_step. case_bool_decide.
  - rewrite adj_setter_valid by (simpl; lia).
    rewrite adj_setter_valid by (simpl; rewrite length_alter; lia). reflexivity.
  - cbn [mret method_ret].
    rewrite adj_setter_valid by (simpl; lia). reflexivity.
Qed.

Lemma add_edge_wf (g : Graph.t) (v w : Z) : Graph.wf g → Graph.wf (add_edge v w g).2.
Proof.
  intros Hwf.
  destruct (decide (0 ≤ v < V g ∧ 0 ≤ w < V g)) as [[Hv Hw]|Hn].
  - rewrite add_edge_run by done. unfold Graph.wf in *. simpl.
    rewrite length_alter. case_bool_decide; [rewrite length_alter|]; done.
  - rewrite add_edge_invalid by done. done.
Qed.
End GraphFacts.

(** C1. On an adjacency-list graph with one list per vertex (as the
    constructor leaves it and [add_edge] keeps it) and with [v] and [w]
    in [0, V), [add_edge v w] returns normally, leaves [V] alone, adds
    exactly 1 to [E], appends [w] to the list of [v] and, when [v ≠ w],
    [v] to the list of [w] (so a self-loop is recorded once); the number
    of lists and every other list are unchanged. *)
Theorem add_edge_list_effect (g : Graph.t) (v w : Z) :
  Graph.wf g → 0 ≤ v < V g → 0 ≤ w < V g →
  ∃ (g' : Graph.t) (row_v row_w : list Z),
    add_edge v w g = (Return (), g') ∧
    V g' = V g ∧ E g' = E g + 1 ∧
    length (_adj g') = length (_adj g) ∧
    _adj g !! Z.to_nat v = Some row_v ∧
    _adj g !! Z.to_nat w = Some row_w ∧
    _adj g' !! Z.to_nat v = Some (row_v ++ [w]) ∧
    (v ≠ w → _adj g' !! Z.to_nat w = Some (row_w ++ [v])) ∧
    (∀ u : nat, u ≠ Z.to_nat v → u ≠ Z.to_nat w → _adj g' !! u = _adj g !! u).
Proof.
  intros Hwf Hv Hw. pose proof Hwf as Hlen. unfold Graph.wf in Hlen.
  destruct (lookup_lt_is_Some_2 (_adj g) (Z.to_nat v)) as [row_v Hrv]; [lia|].
  destruct (lookup_lt_is_Some_2 (_adj g) (Z.to_nat w)) as [row_w Hrw]; [lia|].
  eexists _, row_v, row_w. split; [apply GraphFacts.add_edge_run; done|]. simpl.
  repeat split; try done.
  - rewrite length_alter. case_bool_decide; [rewrite length_alter|]; done.
  - rewrite list_lookup_alter_eq. case_bool_decide as Hne.
    + rewrite list_lookup_alter_ne by lia. rewrite Hrv. done.
    + rewrite Hrv. done.
  - intros Hne. rewrite list_lookup_alter_ne by lia.
    rewrite bool_decide_true by done. rewrite list_lookup_alter_eq, Hrw. done.
  - intros u Huv Huw. rewrite list_lookup_alter_ne by done.
    case_bool_decide; [rewrite list_lookup_alter_ne by done|]; done.
Qed.

Lemma add_edge_list_effect_witness :
  ∃ (g' : Graph.t) (row_v row_w : list Z),
    add_edge 0 2 (Build_graph 3 1 [[1]; [0]; []]) = (Return (), g') ∧
    V g' = 3 ∧ E g' = 1 + 1 ∧
    length (_adj g') = 3%nat ∧
    [[1]; [0]; []] !! Z.to_nat 0 = Some row_v ∧
    [[1]; [0]; []] !! Z.to_nat 2 = Some row_w ∧
    _adj g' !! Z.to_nat 0 = Some (row_v ++ [2]) ∧
    (0 ≠ 2 → _adj g' !! Z.to_nat 2 = Some (row_w ++ [0])) ∧
    (∀ u : nat, u ≠ Z.to_nat 0 → u ≠ Z.to_nat 2 →
       _adj g' !! u = ([[1]; [0]; []] : list (list Z)) !! u).
Proof.
  apply (add_edge_list_effect (Build_graph 3 1 [[1]; [0]; []]) 0 2);
    [reflexivity | simpl; lia | simpl; lia].
Defined.

(** C2. In either variant (the method is inherited, so in any subclass),
    [add_edge v w] with [v] or [w] outside [0, V) raises the [ValueError]
    of [validate_vertex] for the first endpoint that is out of range, and
    the object after the call is the object before it: [E] and the
    adjacency are untouched. *)
Theorem add_edge_out_of_range `{GraphClass A} (g : graph A) (v w : Z) :
  ¬ (0 ≤ v < V g) ∨ ¬ (0 ≤ w < V g) →
  ∃ x : Z,
    (x = v ∨ x = w) ∧ ¬ (0 ≤ x < V g) ∧
    add_edge v w g = (Raise (ValueError (NotBetween x (V g))), g).
Proof.
  intros Hvw. rewrite add_edge_invalid by tauto.
  destruct (decide (0 ≤ v < V g)) as [Hv|Hv].
  - exists w. split; [tauto|]. split; [tauto|]. reflexivity.
  - exists v. split; [tauto|]. split; [tauto|]. reflexivity.
Qed.

Lemma add_edge_out_of_range_witness :
  (∃ x : Z, (x = -1 ∨ x = 0) ∧ ¬ (0 ≤ x < 2) ∧
     add_edge (-1) 0 (Build_graph 2 1 [[1]; [0]])
     = (Raise (ValueError (NotBetween x 2)), Build_graph 2 1 [[1]; [0]])) ∧
  (∃ x : Z, (x = 1 ∨ x = 2) ∧ ¬ (0 ≤ x < 2) ∧
     add_edge 1 2 (Build_graph 2 1 [[false; true]; [true; false]])
     = (Raise (ValueError (NotBetween x 2)),
        Build_graph 2 1 [[false; true]; [true; false]])).
Proof.
  split.
  - apply (add_edge_out_of_range (Build_graph 2 1 [[1]; [0]]) (-1) 0).
    left. simpl. lia.
  - apply (add_edge_out_of_range (Build_graph 2 1 [[false; true]; [true; false]]) 1 2).
    right. simpl. lia.
Defined.

(** ** What every reachable adjacency-list graph satisfies *)

Module GraphInvariant.

Lemma Forall_alter_app (P : Z → Prop) (adj : list (list Z)) (i : nat) (x : Z) :
  P x → Forall (Forall P) adj → Forall (Forall P) (alter (λ row, row ++ [x]) i adj).
Proof.
  intros Hx Hadj. apply Forall_alter; [done|].
  intros row _ Hrow. apply Forall_app. split; [done|]. by apply Forall_singleton.
Qed.

Lemma inv_init (n : Z) (g : Graph.t) : Graph.__init__ n = Return g → adjacency_invariant n g.
Proof.
  intros Hg. split; [|split].
  - unfold Graph.__init__ in Hg. by injection Hg as <-.
  - by apply (GraphFacts.init_wf n).
  - unfold Graph.__init__ in Hg. injection Hg as <-. simpl.
    rewrite GraphFacts.init_adj. apply Forall_replicate. constructor.
Qed.

Lemma inv_add_edge (n : Z) (g : Graph.t) (v w : Z) : adjacency_invariant n g → adjacency_invariant n (add_edge v w g).2.
Proof.
  intros (HV & Hwf & Hadj).
  destruct (decide (0 ≤ v < V g ∧ 0 ≤ w < V g)) as [[Hv Hw]|Hn].
  - split; [|split].
    + rewrite GraphFacts.add_edge_run by done. done.
    + by apply GraphFacts.add_edge_wf.
    + rewrite GraphFacts.add_edge_run by done. simpl.
      apply Forall_alter_app; [lia|].
      case_bool_decide; [apply Forall_alter_app; [lia|]|]; done.
  - rewrite add_edge_invalid by done. done.
Qed.

Lemma reachable_inv (n : Z) (g : Graph.t) : reachable n g → adjacency_invariant n g.
Proof.
  induction 1 as [g Hg|g v w _ IH].
  - by apply inv_init.
  - by apply inv_add_edge.
Qed.
End GraphInvariant.

(** C9. An adjacency-list graph constructed with [n] and then passed
    through any number of [add_edge] calls, returning or raising, still
    has [V = n], and every entry of every adjacency list is a vertex in
    [0, n). (It holds for every [n], so for the non-negative ones.) *)
Theorem adjacency_entries_valid (n : Z) (g : Graph.t) :
  reachable n g →
  V g = n ∧
  ∀ (u : nat) (row : list Z) (x : Z),
    _adj g !! u = Some row → x ∈ row → 0 ≤ x < n.
Proof.
  intros Hg. destruct (GraphInvariant.reachable_inv n g Hg) as (HV & _ & Hadj).
  split; [done|]. intros u row x Hrow Hx.
  rewrite Forall_lookup in Hadj. specialize (Hadj u row Hrow).
  rewrite Forall_forall in Hadj. by apply Hadj.
Qed.

Lemma adjacency_entries_valid_witness :
  V (Build_graph 2 1 [[1]; [0]] : Graph.t) = 2 ∧
  ∀ (u : nat) (row : list Z) (x : Z),
    ([[1]; [0]] : list (list Z)) !! u = Some row → x ∈ row → 0 ≤ x < 2.
Proof.
  apply (adjacency_entries_valid 2 (Build_graph 2 1 [[1]; [0]])).
  change (reachable 2 (add_edge 0 1 (Build_graph 2 0 [[]; []] : Graph.t)).2).
  apply reachable_add_edge.
  change (reachable 2 (add_edge 5 1 (Build_graph 2 0 [[]; []] : Graph.t)).2).
  apply reachable_add_edge.
  apply reachable_init. reflexivity.
Defined.

(** C10. For a negative [n] the constructor of the adjacency-list graph
    returns normally, with [E = 0] and no adjacency container; that
    object is the only one reachable from it, and on it [add_edge v w]
    raises the [ValueError] of [validate_vertex] for [v], whatever the
    integers [v] and [w], leaving it as it was. *)
Theorem negative_vertex_count_rejects_edges (n : Z) :
  n < 0 →
  Graph.__init__ n = Return (Build_graph n 0 []) ∧
  ∀ g : Graph.t, reachable n g →
    g = Build_graph n 0 [] ∧
    ∀ v w : Z, add_edge v w g = (Raise (ValueError (NotBetween v n)), g).
Proof.
  intros Hn.
  assert (Hinit : Graph.__init__ n = Return (Build_graph n 0 [])).
  { unfold Graph.__init__. rewrite GraphFacts.init_adj.
    replace (Z.to_nat n) with 0%nat by lia. reflexivity. }
  assert (Hraise : ∀ v w : Z,
    add_edge v w (Build_graph n 0 [] : Graph.t)
    = (Raise (ValueError (NotBetween v n)), Build_graph n 0 [])).
  { intros v w. rewrite add_edge_invalid by (simpl; lia).
    rewrite decide_False by (simpl; lia). reflexivity. }
  split; [done|]. intros g Hg.
  assert (Heq : g = Build_graph n 0 []).
  { induction Hg as [g Hg|g v w _ IH].
    - cbn [init Graph_class] in Hg. congruence.
    - subst g. by rewrite Hraise. }
  split; [done|]. subst g. apply Hraise.
Qed.

Lemma negative_vertex_count_rejects_edges_witness :
  Graph.__init__ (-3) = Return (Build_graph (-3) 0 []) ∧
  ∀ g : Graph.t, reachable (-3) g →
    g = Build_graph (-3) 0 [] ∧
    ∀ v w : Z, add_edge v w g = (Raise (ValueError (NotBetween v (-3))), g).
Proof.
  apply (negative_vertex_count_rejects_edges (-3)). lia.
Defined.

(** ** max_degree *)

Section max_degree.
Context `{GraphClass A} (g : graph A).
Hypothesis degree_total :
  ∀ v : Z, 0 ≤ v < V g → ∃ d : Z, degree v g = (Return d, g) ∧ 0 ≤ d.

Lemma max_degree_loop_spec (vs : list Z) (max : Z) :
  (∀ v, v ∈ vs → 0 ≤ v < V g) →
  ∃ m : Z,
    max_degree_loop vs max g = (Return m, g) ∧ max ≤ m ∧
    (∀ v, v ∈ vs → ∃ d, degree v g = (Return d, g) ∧ d ≤ m) ∧
    (m = max ∨ ∃ v, v ∈ vs ∧ degree v g = (Return m, g)).
Proof.
  revert max. induction vs as [|v vs IH]; intros max Hvs.
  - exists max. split; [reflexivity|]. split; [lia|]. split; [|by left].
    intros v Hv. by apply elem_of_nil in Hv.
  - destruct (degree_total v) as (d & Hd & Hd0); [apply Hvs; left|].
    destruct (IH (if d >? max then d else max)) as (m & Hm & Hle & Hub & Hat).
    { intros u Hu. apply Hvs. by right. }
    exists m. split; [|split; [|split]].
    + cbn [max_degree_loop]. rewrite bind_step, Hd. exact Hm.
    + destruct (d >? max) eqn:Hcmp; lia.
    + intros u [->|Hu]%elem_of_cons; [|by apply Hub].
      exists d. split; [done|]. destruct (d >? max) eqn:Hcmp; lia.
    + destruct Hat as [->|(u & Hu & Hdu)].
      * destruct (d >? max) eqn:Hcmp; [|by left].
        right. exists v. split; [left|done].
      * right. exists u. split; [by right|done].
Qed.

Lemma max_degree_spec : ∃ m : Z, max_degree g = (Return m, g) ∧ is_max_degree g m.
Proof.
  destruct (max_degree_loop_spec (range (V g)) 0) as (m & Hm & H0 & Hub & Hat).
  { intros v Hv. unfold range in Hv. apply elem_of_seqZ in Hv. lia. }
  exists m. split; [exact Hm|]. split; [|split].
  - intros v Hv. apply Hub. unfold range. apply elem_of_seqZ. lia.
  - intros HV. destruct Hat as [->|(v & Hv & Hdv)].
    + exists 0. split; [lia|].
      destruct (Hub 0) as (d & Hd & Hle); [unfold range; apply elem_of_seqZ; lia|].
      destruct (degree_total 0) as (d' & Hd' & Hge); [lia|].
      rewrite Hd in Hd'. injection Hd' as <-.
      replace d with 0 in Hd by lia. exact Hd.
    + exists v. split; [|done]. unfold range in Hv. apply elem_of_seqZ in Hv. lia.
  - intros HV. destruct Hat as [->|(v & Hv & _)]; [done|].
    unfold range in Hv. apply elem_of_seqZ in Hv. lia.
Qed.
End max_degree.

Lemma list_degree_run (g : Graph.t) (v : Z) :
  Graph.wf g → 0 ≤ v < V g →
  ∃ row : list Z,
    _adj g !! Z.to_nat v = Some row ∧
    degree v g = (Return (Z.of_nat (length row)), g).
Proof.
  intros Hwf Hv. unfold Graph.wf in Hwf.
  destruct (lookup_lt_is_Some_2 (_adj g) (Z.to_nat v)) as [row Hrow]; [lia|].
  exists row. split; [done|].
  cbn [degree Graph_class]. unfold Graph.degree.
  rewrite bind_step, validate_vertex_ok by done.
  unfold reads. rewrite (getitem_in_range _ _ row) by (done || lia). reflexivity.
Qed.

Lemma matrix_degree_run (g : AdjMatrixGraph.t) (v : Z) :
  AdjMatrixGraph.wf g → 0 ≤ v < V g →
  ∃ row : list bool,
    _adj g !! Z.to_nat v = Some row ∧
    degree v g = (Return (Z.of_nat (length (filter (λ b, b = true) row))), g).
Proof.
  intros [Hwf _] Hv.
  destruct (lookup_lt_is_Some_2 (_adj g) (Z.to_nat v)) as [row Hrow]; [lia|].
  exists row. split; [done|].
  cbn [degree AdjMatrixGraph_class]. unfold AdjMatrixGraph.degree.
  rewrite bind_step, validate_vertex_ok by done.
  unfold reads. rewrite (getitem_in_range _ _ row) by (done || lia). reflexivity.
Qed.

(** C8. In both variants [max_degree] returns, without changing the
    graph, the largest [degree v] over the vertices [v] in [0, V): no
    vertex has a larger degree and some vertex has that degree; with no
    vertex it returns 0, and so it does when every vertex has degree 0. *)
Theorem max_degree_is_maximum :
  (∀ g : Graph.t, Graph.wf g →
     ∃ m : Z, max_degree g = (Return m, g) ∧ is_max_degree g m ∧
       ((∀ v, 0 ≤ v < V g → degree v g = (Return 0, g)) → m = 0)) ∧
  (∀ g : AdjMatrixGraph.t, AdjMatrixGraph.wf g →
     ∃ m : Z, max_degree g = (Return m, g) ∧ is_max_degree g m ∧
       ((∀ v, 0 ≤ v < V g → degree v g = (Return 0, g)) → m = 0)).
Proof.
  assert (Hiso : ∀ `{GraphClass A} (g : graph A) (m : Z),
    is_max_degree g m → (∀ v, 0 ≤ v < V g → degree v g = (Return 0, g)) → m = 0).
  { intros A ? g m (_ & Hat & Hnone) Hall.
    destruct (decide (0 < V g)) as [HV|HV]; [|apply Hnone; lia].
    destruct (Hat HV) as (v & Hv & Hd). rewrite (Hall v Hv) in Hd. congruence. }
  split; intros g Hwf.
  - destruct (max_degree_spec g) as (m & Hm & Hmax).
    { intros v Hv. destruct (list_degree_run g v Hwf Hv) as (row & _ & Hd).
      eexists. split; [exact Hd|lia]. }
    exists m. split; [done|]. split; [done|]. by apply Hiso.
  - destruct (max_degree_spec g) as (m & Hm & Hmax).
    { intros v Hv. destruct (matrix_degree_run g v Hwf Hv) as (row & _ & Hd).
      eexists. split; [exact Hd|lia]. }
    exists m. split; [done|]. split; [done|]. by apply Hiso.
Qed.

Lemma max_degree_is_maximum_witness :
  (∃ m : Z,
     max_degree (Build_graph 3 2 [[1]; [0; 2]; [1]]) = (Return m, Build_graph 3 2 [[1]; [0; 2]; [1]]) ∧
     is_max_degree (Build_graph 3 2 [[1]; [0; 2]; [1]]) m) ∧
  (∃ m : Z,
     max_degree (Build_graph 2 1 [[false; true]; [true; false]])
     = (Return m, Build_graph 2 1 [[false; true]; [true; false]]) ∧
     is_max_degree (Build_graph 2 1 [[false; true]; [true; false]]) m).
Proof.
  split.
  - destruct (proj1 max_degree_is_maximum (Build_graph 3 2 [[1]; [0; 2]; [1]]))
      as (m & Hm & Hmax & _); [reflexivity|].
    exists m. split; [exact Hm|exact Hmax].
  - destruct (proj2 max_degree_is_maximum (Build_graph 2 1 [[false; true]; [true; false]]))
      as (m & Hm & Hmax & _).
    { split; [reflexivity|]. repeat constructor. }
    exists m. split; [exact Hm|exact Hmax].
Defined.

(** ** self_loops on adjacency lists *)

Module SelfLoops.

Lemma count_self_spec (v : Z) (row : list Z) (count : Z) :
  Graph.count_self v row count = count + Z.of_nat (length (filter (λ w, v = w) row)).
Proof.
  revert count. induction row as [|w row IH]; intros count; simpl.
  - lia.
  - rewrite IH, filter_cons. case_bool_decide; case_decide; simpl; try done; lia.
Qed.

Lemma self_loops_loop_spec (adj : list (list Z)) (m k : nat) (count : Z) :
  (k + m)%nat = length adj →
  Graph.self_loops_loop adj (seqZ (Z.of_nat k) (Z.of_nat m)) count
  = Return (count + diagonal (Z.of_nat k) (drop k adj)).
Proof.
  revert k count. induction m as [|m IH]; intros k count Hlen.
  - rewrite drop_ge by lia. simpl. f_equal. lia.
  - destruct (lookup_lt_is_Some_2 adj k) as [row Hrow]; [lia|].
    rewrite seqZ_cons by lia. cbn [Graph.self_loops_loop].
    rewrite (getitem_in_range adj (Z.of_nat k) row) by (rewrite ?Nat2Z.id; done || lia).
    cbn [mbind result_bind].
    replace (Z.succ (Z.of_nat k)) with (Z.of_nat (S k)) by lia.
    replace (Z.pred (Z.of_nat (S m))) with (Z.of_nat m) by lia.
    rewrite IH by lia. rewrite (drop_S adj row k Hrow). cbn [diagonal].
    rewrite count_self_spec.
    replace (Z.of_nat k + 1) with (Z.of_nat (S k)) by lia. f_equal. lia.
Qed.

Lemma diagonal_fresh (m : nat) (k : Z) : diagonal k (replicate m []) = 0.
Proof. revert k. induction m as [|m IH]; intros k; simpl; [done|]. by rewrite IH. Qed.

Lemma self_loops_run (g : Graph.t) :
  Graph.wf g → self_loops g = (Return (diagonal 0 (_adj g)), g).
Proof.
  intros Hwf. unfold Graph.wf in Hwf. cbn [self_loops Graph_class]. unfold Graph.self_loops, reads, range.
  f_equal. destruct (decide (0 ≤ V g)) as [HV|HV].
  - replace (V g) with (Z.of_nat (length (_adj g))) by lia.
    rewrite (self_loops_loop_spec (_adj g) (length (_adj g)) 0) by lia.
    simpl. reflexivity.
  - assert (Hnil : _adj g = []) by (apply length_zero_iff_nil; lia).
    rewrite Hnil. unfold seqZ. replace (Z.to_nat (V g)) with 0%nat by lia. reflexivity.
Qed.

Lemma diagonal_alter (adj : list (list Z)) (k : Z) (i : nat) (x : Z) :
  (i < length adj)%nat →
  diagonal k (alter (λ row, row ++ [x]) i adj)
  = diagonal k adj + (if bool_decide (k + Z.of_nat i = x) then 1 else 0).
Proof.
  revert k i. induction adj as [|row adj IH]; intros k i Hi; simpl in Hi; [lia|].
  destruct i as [|i].
  - change (alter (λ r, r ++ [x]) 0%nat (row :: adj)) with ((row ++ [x]) :: adj).
    cbn [diagonal]. rewrite filter_app, length_app, filter_cons, filter_nil.
    case_bool_decide; case_decide; simpl; lia.
  - change (alter (λ r, r ++ [x]) (S i) (row :: adj))
      with (row :: alter (λ r, r ++ [x]) i adj).
    cbn [diagonal]. rewrite IH by lia.
    replace (k + 1 + Z.of_nat i) with (k + Z.of_nat (S i)) by lia. lia.
Qed.

Lemma add_edge_diagonal (g : Graph.t) (v w : Z) :
  Graph.wf g → 0 ≤ v < V g → 0 ≤ w < V g →
  diagonal 0 (_adj (add_edge v w g).2)
  = diagonal 0 (_adj g) + (if bool_decide (v = w) then 1 else 0).
Proof.
  intros Hwf Hv Hw. rewrite GraphFacts.add_edge_run by done. unfold Graph.wf in Hwf. simpl.
  rewrite diagonal_alter by (case_bool_decide; rewrite ?length_alter; lia).
  case_bool_decide as Hne.
  - rewrite diagonal_alter by lia.
    rewrite !bool_decide_false by lia. lia.
  - rewrite bool_decide_true by lia.
    rewrite bool_decide_true by done. reflexivity.
Qed.

Lemma add_edges_run (g : Graph.t) (calls : list (Z * Z)) :
  Graph.wf g → Forall (in_range (V g)) calls →
  ∃ g' : Graph.t,
    add_edges calls g = (Return (), g') ∧ Graph.wf g' ∧ V g' = V g ∧
    E g' = E g + Z.of_nat (length calls) ∧
    diagonal 0 (_adj g')
    = diagonal 0 (_adj g) + Z.of_nat (length (filter is_self_loop calls)).
Proof.
  revert g. induction calls as [|[v w] calls IH]; intros g Hwf Hcalls.
  - exists g. repeat split; simpl; try done; lia.
  - apply Forall_cons in Hcalls as [[Hv Hw] Hcalls]. simpl in Hv, Hw.
    pose proof (add_edge_diagonal g v w Hwf Hv Hw) as Hdiag.
    pose proof (GraphFacts.add_edge_wf g v w Hwf) as Hwf1.
    pose proof (GraphFacts.add_edge_run g v w Hwf Hv Hw) as Hrun.
    destruct (add_edge v w g) as [r g1] eqn:Hg1. injection Hrun as -> Hg1'.
    simpl in Hdiag, Hwf1.
    assert (HV1 : V g1 = V g) by (by rewrite Hg1').
    assert (HE1 : E g1 = E g + 1) by (by rewrite Hg1').
    destruct (IH g1 Hwf1) as (g' & Hrun' & Hwf' & HV' & HE' & Hdiag').
    { by rewrite HV1. }
    exists g'. split; [|split; [done|split; [congruence|split]]].
    + cbn [add_edges]. rewrite bind_step. simpl. rewrite Hg1. exact Hrun'.
    + rewrite HE', HE1. simpl. lia.
    + rewrite Hdiag', Hdiag, filter_cons. clear Hg1'.
      case_bool_decide; case_decide; simpl in *; try done; lia.
Qed.
End SelfLoops.

(** ** The matrix-backed graph *)

Module MatrixFacts.

Lemma matrix_init_run (n : Z) :
  0 ≤ n →
  AdjMatrixGraph.__init__ n
  = Return (Build_graph n 0 (replicate (Z.to_nat n) (replicate (Z.to_nat n) false))).
Proof.
  intros Hn. unfold AdjMatrixGraph.__init__, Graph.__init__, AdjMatrixGraph.zeros.
  cbn [mbind result_bind]. destruct (n <? 0) eqn:Hneg; [lia|]. reflexivity.
Qed.

Lemma matrix_init_negative (n : Z) :
  n < 0 → AdjMatrixGraph.__init__ n = Raise (ValueError NegativeDimensions).
Proof.
  intros Hn. unfold AdjMatrixGraph.__init__, Graph.__init__, AdjMatrixGraph.zeros.
  cbn [mbind result_bind]. destruct (n <? 0) eqn:Hneg; [reflexivity|lia].
Qed.

Lemma matrix_init_wf (n : Z) (g : AdjMatrixGraph.t) :
  AdjMatrixGraph.__init__ n = Return g → AdjMatrixGraph.wf g.
Proof.
  intros Hg. destruct (decide (0 ≤ n)) as [Hn|Hn].
  - rewrite matrix_init_run in Hg by done. injection Hg as <-. split; simpl.
    + by rewrite length_replicate.
    + apply Forall_replicate. by rewrite length_replicate.
  - rewrite matrix_init_negative in Hg by lia. discriminate.
Qed.

Lemma matrix_adj_setter_run (g : AdjMatrixGraph.t) (a b : Z) :
  AdjMatrixGraph.wf g → 0 ≤ a < V g → 0 ≤ b < V g →
  ∃ row : list bool,
    _adj g !! Z.to_nat a = Some row ∧
    adj_setter (a, b) g
    = (Return (), set_adj (<[Z.to_nat a := <[Z.to_nat b := true]> row]> (_adj g)) g).
Proof.
  intros [Hlen Hrows] Ha Hb.
  destruct (lookup_lt_is_Some_2 (_adj g) (Z.to_nat a)) as [row Hrow]; [lia|].
  exists row. split; [done|].
  assert (Hrl : length row = Z.to_nat (V g)).
  { rewrite Forall_lookup in Hrows. by apply (Hrows (Z.to_nat a)). }
  cbn [adj_setter AdjMatrixGraph_class]. unfold AdjMatrixGraph.adj_setter. simpl.
  rewrite index_in_range by lia. cbn [mbind result_bind].
  rewrite (getitem_in_range _ _ row) by (done || lia). cbn [mbind result_bind].
  rewrite index_in_range by lia. reflexivity.
Qed.

Lemma set_adj_wf (g : AdjMatrixGraph.t) (i j : nat) (row : list bool) :
  AdjMatrixGraph.wf g → _adj g !! i = Some row →
  AdjMatrixGraph.wf (set_adj (<[i := <[j := true]> row]> (_adj g)) g).
Proof.
  intros [Hlen Hrows] Hrow. split; simpl.
  - by rewrite length_insert.
  - apply Forall_insert; [done|]. rewrite length_insert.
    rewrite Forall_lookup in Hrows. by apply (Hrows i).
Qed.

(** The object after a successful [add_edge]. *)
Lemma matrix_add_edge_run (g : AdjMatrixGraph.t) (v w : Z) :
  AdjMatrixGraph.wf g → 0 ≤ v < V g → 0 ≤ w < V g →
  ∃ g' : AdjMatrixGraph.t,
    add_edge v w g = (Return (), g') ∧
    V g' = V g ∧ E g' = E g + 1 ∧ AdjMatrixGraph.wf g' ∧
    ∀ (u : nat) (row : list bool),
      _adj g !! u = Some row →
      _adj g' !! u = Some (set_cells (Z.to_nat v) (Z.to_nat w) u row).
Proof.
  intros Hwf Hv Hw. rewrite add_edge_valid by done. rewrite bind_step.
  set (g0 := set_E (E g + 1) g).
  assert (Hwf0 : AdjMatrixGraph.wf g0) by exact Hwf.
  case_bool_decide as Hne.
  - destruct (matrix_adj_setter_run g0 w v Hwf0 Hw Hv) as (row_w & Hrw & ->).
    pose proof (set_adj_wf g0 _ (Z.to_nat v) _ Hwf0 Hrw) as Hwf1.
    destruct (matrix_adj_setter_run _ v w Hwf1 Hv Hw) as (row_v & Hrv & ->).
    pose proof (set_adj_wf _ _ (Z.to_nat w) _ Hwf1 Hrv) as Hwf2.
    eexists. split; [reflexivity|]. split; [done|]. split; [done|]. split; [done|].
    simpl in *. rewrite list_lookup_insert_ne in Hrv by lia.
    intros u row Hrow. unfold set_cells.
    destruct (decide (u = Z.to_nat v)) as [->|Huv].
    + rewrite list_lookup_insert_eq by (rewrite length_insert; by eapply lookup_lt_Some).
      congruence.
    + rewrite list_lookup_insert_ne by done.
      destruct (decide (u = Z.to_nat w)) as [->|Huw].
      * rewrite list_lookup_insert_eq by (by eapply lookup_lt_Some). congruence.
      * by rewrite list_lookup_insert_ne.
  - assert (v = w) as <- by (destruct (decide (v = w)); [done|by destruct Hne]).
    cbn [mret method_ret].
    destruct (matrix_adj_setter_run g0 v v Hwf0 Hv Hv) as (row_v & Hrv & ->).
    pose proof (set_adj_wf g0 _ (Z.to_nat v) _ Hwf0 Hrv) as Hwf1.
    eexists. split; [reflexivity|]. split; [done|]. split; [done|]. split; [done|].
    simpl in *. intros u row Hrow. unfold set_cells.
    destruct (decide (u = Z.to_nat v)) as [->|Huv].
    + rewrite list_lookup_insert_eq by (by eapply lookup_lt_Some). congruence.
    + by rewrite list_lookup_insert_ne.
Qed.

Lemma matrix_add_edge_wf (g : AdjMatrixGraph.t) (v w : Z) :
  AdjMatrixGraph.wf g → AdjMatrixGraph.wf (add_edge v w g).2.
Proof.
  intros Hwf.
  destruct (decide (0 ≤ v < V g ∧ 0 ≤ w < V g)) as [[Hv Hw]|Hn].
  - destruct (matrix_add_edge_run g v w Hwf Hv Hw) as (g' & -> & _ & _ & Hwf' & _). done.
  - rewrite add_edge_invalid by done. done.
Qed.

Lemma matrix_reachable_wf (n : Z) (g : AdjMatrixGraph.t) :
  reachable n g → AdjMatrixGraph.wf g.
Proof.
  induction 1 as [g Hg|g v w _ IH].
  - by apply (matrix_init_wf n).
  - by apply matrix_add_edge_wf.
Qed.

Lemma filter_true_replicate_false (k : nat) :
  filter (λ b : bool, b = true) (replicate k false) = [].
Proof. induction k as [|k IH]; [done|]. simpl. by rewrite filter_cons_False. Qed.

(** A row of a fresh matrix with one cell set has one true cell. *)
Lemma count_one_cell (n j : nat) :
  (j < n)%nat →
  length (filter (λ b : bool, b = true) (<[j := true]> (replicate n false))) = 1%nat.
Proof.
  intros Hj. rewrite insert_replicate_lt by done.
  rewrite filter_app, filter_cons_True by done.
  rewrite !filter_true_replicate_false. reflexivity.
Qed.
End MatrixFacts.

(** C4. On a freshly constructed matrix graph with valid vertices [v] and
    [w], [add_edge v w] called twice returns twice; [degree v] is 1 after
    the first call and still 1 after the second, while [E] is then 2. *)
Theorem matrix_duplicate_edge (n v w : Z) :
  0 ≤ v < n → 0 ≤ w < n →
  ∃ g0 g1 g2 : AdjMatrixGraph.t,
    init n = Return g0 ∧
    add_edge v w g0 = (Return (), g1) ∧
    E g1 = 1 ∧ degree v g1 = (Return 1, g1) ∧
    add_edge v w g1 = (Return (), g2) ∧
    E g2 = 2 ∧ degree v g2 = (Return 1, g2).
Proof.
  intros Hv Hw.
  pose proof (MatrixFacts.matrix_init_run n ltac:(lia)) as Hinit.
  set (g0 := Build_graph n 0 (replicate (Z.to_nat n) (replicate (Z.to_nat n) false))) in *.
  pose proof (MatrixFacts.matrix_init_wf n g0 Hinit) as Hwf0.
  destruct (MatrixFacts.matrix_add_edge_run g0 v w Hwf0 Hv Hw)
    as (g1 & Hrun1 & HV1 & HE1 & Hwf1 & Hrows1).
  destruct (MatrixFacts.matrix_add_edge_run g1 v w Hwf1) as (g2 & Hrun2 & HV2 & HE2 & Hwf2 & Hrows2);
    [rewrite HV1; exact Hv | rewrite HV1; exact Hw |].
  assert (Hrow1 : _adj g1 !! Z.to_nat v
                  = Some (<[Z.to_nat w := true]> (replicate (Z.to_nat n) false))).
  { rewrite (Hrows1 (Z.to_nat v) (replicate (Z.to_nat n) false)).
    - unfold set_cells. by rewrite decide_True.
    - simpl. apply lookup_replicate_2. lia. }
  assert (Hrow2 : _adj g2 !! Z.to_nat v
                  = Some (<[Z.to_nat w := true]> (replicate (Z.to_nat n) false))).
  { rewrite (Hrows2 _ _ Hrow1). unfold set_cells. rewrite decide_True by done.
    by rewrite list_insert_insert_eq. }
  assert (Hdeg : ∀ g : AdjMatrixGraph.t,
    AdjMatrixGraph.wf g → V g = n →
    _adj g !! Z.to_nat v = Some (<[Z.to_nat w := true]> (replicate (Z.to_nat n) false)) →
    degree v g = (Return 1, g)).
  { intros g Hwf HV Hrow.
    destruct (matrix_degree_run g v Hwf) as (row & Hrow' & ->); [lia|].
    rewrite Hrow in Hrow'. injection Hrow' as <-.
    rewrite MatrixFacts.count_one_cell by lia. reflexivity. }
  exists g0, g1, g2. split; [exact Hinit|]. split; [exact Hrun1|].
  split; [rewrite HE1; reflexivity|].
  split; [apply Hdeg; [done | rewrite HV1; reflexivity | done]|].
  split; [exact Hrun2|]. split; [rewrite HE2, HE1; reflexivity|].
  apply Hdeg; [done | rewrite HV2, HV1; reflexivity | done].
Qed.

Lemma matrix_duplicate_edge_witness :
  ∃ g0 g1 g2 : AdjMatrixGraph.t,
    init 3 = Return g0 ∧
    add_edge 0 2 g0 = (Return (), g1) ∧
    E g1 = 1 ∧ degree 0 g1 = (Return 1, g1) ∧
    add_edge 0 2 g1 = (Return (), g2) ∧
    E g2 = 2 ∧ degree 0 g2 = (Return 1, g2).
Proof. apply (matrix_duplicate_edge 3 0 2); lia. Defined.

(** ** self_loops on the matrix *)

Module MatrixSelfLoops.

Lemma filter_ext_in {A} (P Q : A → Prop) `{!∀ x, Decision (P x), !∀ x, Decision (Q x)}
    (l : list A) :
  (∀ x, x ∈ l → P x ↔ Q x) → filter P l = filter Q l.
Proof.
  induction l as [|a l IH]; intros HPQ; [done|].
  rewrite !filter_cons, IH by (intros x Hx; apply HPQ; by right).
  destruct (decide (P a)) as [HP|HP]; destruct (decide (Q a)) as [HQ|HQ]; try done.
  - destruct HQ. apply HPQ; [left|done].
  - destruct HP. apply HPQ; [left|done].
Qed.

Lemma matrix_self_loops_loop_spec (adj : list (list bool)) (vs : list Z) (count : Z) :
  (∀ v, v ∈ vs → 0 ≤ v ∧ ∃ row, adj !! Z.to_nat v = Some row ∧ (Z.to_nat v < length row)%nat) →
  AdjMatrixGraph.self_loops_loop adj vs count
  = Return (count + Z.of_nat (length (filter (λ v, diag adj v = true) vs))).
Proof.
  revert count. induction vs as [|v vs IH]; intros count Hvs.
  - simpl. f_equal. lia.
  - destruct (Hvs v) as (Hv & row & Hrow & Hlen); [left|].
    destruct (lookup_lt_is_Some_2 row (Z.to_nat v) Hlen) as [cell Hcell].
    cbn [AdjMatrixGraph.self_loops_loop].
    rewrite (getitem_in_range adj v row) by done. cbn [mbind result_bind].
    rewrite (getitem_in_range row v cell) by done. cbn [mbind result_bind].
    rewrite IH by (intros u Hu; apply Hvs; by right).
    assert (Hd : diag adj v = cell) by (unfold diag; by rewrite Hrow, Hcell).
    rewrite filter_cons, Hd.
    destruct cell; case_decide; simpl; try done; f_equal; lia.
Qed.

Lemma matrix_self_loops_run (g : AdjMatrixGraph.t) :
  AdjMatrixGraph.wf g →
  self_loops g
  = (Return (Z.of_nat (length (filter (λ v, diag (_adj g) v = true) (range (V g))))), g).
Proof.
  intros [Hlen Hrows]. cbn [self_loops AdjMatrixGraph_class].
  unfold AdjMatrixGraph.self_loops, reads. f_equal.
  rewrite matrix_self_loops_loop_spec; [f_equal; lia|].
  intros v Hv. unfold range in Hv. apply elem_of_seqZ in Hv. split; [lia|].
  destruct (lookup_lt_is_Some_2 (_adj g) (Z.to_nat v)) as [row Hrow]; [lia|].
  exists row. split; [done|].
  rewrite Forall_lookup in Hrows. rewrite (Hrows _ _ Hrow). lia.
Qed.

Lemma set_cells_diag (v w u : nat) (row : list bool) :
  (u < length row)%nat →
  set_cells v w u row !! u
  = if bool_decide (u = v ∧ u = w) then Some true else row !! u.
Proof.
  intros Hu. unfold set_cells.
  destruct (decide (u = v)) as [->|Huv].
  - destruct (decide (v = w)) as [->|Hvw].
    + rewrite bool_decide_true by done. by apply list_lookup_insert_eq.
    + rewrite bool_decide_false by tauto. by apply list_lookup_insert_ne.
  - rewrite bool_decide_false by tauto.
    destruct (decide (u = w)); [by apply list_lookup_insert_ne|done].
Qed.

Lemma matrix_add_edges_run (g : AdjMatrixGraph.t) (calls : list (Z * Z)) :
  AdjMatrixGraph.wf g → Forall (in_range (V g)) calls →
  ∃ g' : AdjMatrixGraph.t,
    add_edges calls g = (Return (), g') ∧ AdjMatrixGraph.wf g' ∧ V g' = V g ∧
    E g' = E g + Z.of_nat (length calls) ∧
    ∀ u : Z, 0 ≤ u < V g →
      diag (_adj g') u = diag (_adj g) u || bool_decide ((u, u) ∈ calls).
Proof.
  revert g. induction calls as [|[v w] calls IH]; intros g Hwf Hcalls.
  - exists g. split; [done|]. split; [done|]. split; [done|]. split; [simpl; lia|].
    intros u _. rewrite bool_decide_false by (by intros ?%elem_of_nil).
    by rewrite orb_false_r.
  - apply Forall_cons in Hcalls as [[Hv Hw] Hcalls]. simpl in Hv, Hw.
    destruct (MatrixFacts.matrix_add_edge_run g v w Hwf Hv Hw)
      as (g1 & Hrun1 & HV1 & HE1 & Hwf1 & Hrows1).
    destruct (IH g1 Hwf1) as (g' & Hrun' & Hwf' & HV' & HE' & Hdiag').
    { by rewrite HV1. }
    exists g'. split; [|split; [done|split; [congruence|split]]].
    + cbn [add_edges]. rewrite bind_step. simpl. rewrite Hrun1. exact Hrun'.
    + rewrite HE', HE1. simpl. lia.
    + intros u Hu. rewrite Hdiag' by (by rewrite HV1).
      destruct Hwf as [Hlen Hrows].
      destruct (lookup_lt_is_Some_2 (_adj g) (Z.to_nat u)) as [row Hrow]; [lia|].
      assert (Hrl : length row = Z.to_nat (V g)).
      { rewrite Forall_lookup in Hrows. by apply (Hrows (Z.to_nat u)). }
      unfold diag at 1 2. rewrite (Hrows1 _ _ Hrow), Hrow.
      rewrite set_cells_diag by lia.
      destruct (decide (u = v ∧ u = w)) as [[-> ->]|Hne].
      * rewrite bool_decide_true by done. simpl.
        rewrite (bool_decide_true ((w, w) ∈ (w, w) :: calls)) by left.
        by rewrite orb_true_r.
      * rewrite bool_decide_false by lia.
        f_equal. apply bool_decide_ext. rewrite elem_of_cons.
        split; [by right|]. intros [[= -> ->]|?]; [lia|done].
Qed.

(** The vertices with a self-loop call, once each, are as many as the
    vertices in [0, n) that some call names twice. *)
Lemma count_distinct (n : Z) (calls : list (Z * Z)) :
  Forall (in_range n) calls →
  length (filter (λ v, (v, v) ∈ calls) (range n))
  = length (remove_dups (filter is_self_loop calls).*1).
Proof.
  intros Hcalls. apply Permutation_length, NoDup_Permutation.
  - apply NoDup_filter, NoDup_seqZ.
  - apply NoDup_remove_dups.
  - intros x. rewrite list_elem_of_filter, elem_of_remove_dups, list_elem_of_fmap.
    unfold range. rewrite elem_of_seqZ. split.
    + intros [Hx _]. exists (x, x). split; [done|].
      apply list_elem_of_filter. split; [reflexivity|done].
    + intros ([a b] & -> & [Hab Hin]%list_elem_of_filter).
      unfold is_self_loop in Hab. simpl in *. subst b. split; [done|].
      rewrite Forall_forall in Hcalls. destruct (Hcalls _ Hin) as [Ha _].
      simpl in Ha. lia.
Qed.
End MatrixSelfLoops.

(** C3. Construct a graph on [n] vertices and make the calls [calls] of
    [add_edge], all of them with valid endpoints: they all return. On
    adjacency lists [self_loops] is then the number of calls with
    [v = w], each call counted; on the matrix it is the number of
    distinct vertices [v] with a call [add_edge v v]. *)
Theorem self_loops_count (n : Z) (calls : list (Z * Z)) :
  0 ≤ n → Forall (in_range n) calls →
  (∃ g0 g : Graph.t,
     init n = Return g0 ∧ add_edges calls g0 = (Return (), g) ∧
     self_loops g
     = (Return (Z.of_nat (length (filter is_self_loop calls))), g)) ∧
  (∃ g0 g : AdjMatrixGraph.t,
     init n = Return g0 ∧ add_edges calls g0 = (Return (), g) ∧
     self_loops g
     = (Return (Z.of_nat (length (remove_dups (filter is_self_loop calls).*1))), g)).
Proof.
  intros Hn Hcalls. split.
  - set (g0 := Build_graph n 0 (replicate (Z.to_nat n) []) : Graph.t).
    assert (Hinit : init n = Return g0).
    { cbn [init Graph_class]. unfold Graph.__init__. by rewrite GraphFacts.init_adj. }
    pose proof (GraphFacts.init_wf n g0 Hinit) as Hwf0.
    destruct (SelfLoops.add_edges_run g0 calls Hwf0 Hcalls) as (g & Hrun & Hwf & _ & _ & Hd).
    exists g0, g. split; [done|]. split; [done|].
    rewrite SelfLoops.self_loops_run by done. rewrite Hd.
    simpl. by rewrite SelfLoops.diagonal_fresh.
  - pose proof (MatrixFacts.matrix_init_run n Hn) as Hinit.
    set (g0 := Build_graph n 0 (replicate (Z.to_nat n) (replicate (Z.to_nat n) false))) in *.
    pose proof (MatrixFacts.matrix_init_wf n g0 Hinit) as Hwf0.
    destruct (MatrixSelfLoops.matrix_add_edges_run g0 calls Hwf0 Hcalls)
      as (g & Hrun & Hwf & HV & _ & Hd).
    exists g0, g. split; [done|]. split; [done|].
    rewrite MatrixSelfLoops.matrix_self_loops_run by done.
    rewrite <-(MatrixSelfLoops.count_distinct n calls Hcalls). do 4 f_equal.
    rewrite HV. simpl. apply MatrixSelfLoops.filter_ext_in.
    intros u Hu. unfold range in Hu. apply elem_of_seqZ in Hu.
    rewrite Hd by (simpl; lia).
    replace (diag (_adj g0) u) with false.
    + simpl. by rewrite bool_decide_eq_true.
    + unfold diag. simpl. rewrite lookup_replicate_2 by lia.
      by rewrite lookup_replicate_2 by lia.
Qed.

Lemma self_loops_count_witness :
  (∃ g0 g : Graph.t,
     init 3 = Return g0 ∧ add_edges [(0, 0); (1, 2); (0, 0); (2, 2)] g0 = (Return (), g) ∧
     self_loops g = (Return 3, g)) ∧
  (∃ g0 g : AdjMatrixGraph.t,
     init 3 = Return g0 ∧ add_edges [(0, 0); (1, 2); (0, 0); (2, 2)] g0 = (Return (), g) ∧
     self_loops g = (Return 2, g)).
Proof.
  apply (self_loops_count 3 [(0, 0); (1, 2); (0, 0); (2, 2)]); [lia|].
  repeat constructor; simpl; lia.
Defined.

(** ** The edge-list reader *)

Module Reader.

Lemma int_raise (s : string) (x : exn) : int s = Raise x → parse_error x.
Proof.
  unfold int. destruct (match skip_space s with EmptyString => _ | _ => _ end);
    [discriminate|]. by intros [= <-].
Qed.

Lemma unpack_edge_return (tokens : list string) (e : Z * Z) :
  unpack_edge tokens = Return e ↔
  ∃ a b : string, tokens = [a; b] ∧ int a = Return e.1 ∧ int b = Return e.2.
Proof.
  split.
  - destruct tokens as [|a [|b [|c tokens]]]; simpl; try discriminate.
    + destruct (int a); discriminate.
    + destruct (int a) as [v|] eqn:Ha; [|discriminate]. simpl.
      destruct (int b) as [w|] eqn:Hb; [|discriminate]. simpl.
      intros [= <-]. by exists a, b.
    + destruct (int a); [|discriminate]. simpl.
      destruct (int b); [|discriminate]. simpl.
      destruct (int c); discriminate.
  - intros (a & b & -> & Ha & Hb). simpl. rewrite Ha. simpl. rewrite Hb. simpl.
    by destruct e.
Qed.

Lemma unpack_edge_raise (tokens : list string) (x : exn) :
  unpack_edge tokens = Raise x → parse_error x.
Proof.
  destruct tokens as [|a [|b [|c tokens]]]; simpl.
  - by intros [= <-].
  - destruct (int a) eqn:Ha; simpl; [by intros [= <-]|].
    intros [= <-]. by apply (int_raise a).
  - destruct (int a) eqn:Ha; simpl; [|intros [= <-]; by apply (int_raise a)].
    destruct (int b) eqn:Hb; simpl; [discriminate|].
    intros [= <-]. by apply (int_raise b).
  - destruct (int a) eqn:Ha; simpl; [|intros [= <-]; by apply (int_raise a)].
    destruct (int b) eqn:Hb; simpl; [|intros [= <-]; by apply (int_raise b)].
    destruct (int c) eqn:Hc; simpl; [by intros [= <-]|].
    intros [= <-]. by apply (int_raise c).
Qed.

Lemma read_edges_step (v : Z) (rng : list Z) (f : string) (edges : list (Z * Z)) :
  read_edges (v :: rng) f edges =
  e ← unpack_edge (split (readline f).1);
  read_edges rng (readline f).2 (edges ++ [e]).
Proof. simpl. by destruct (readline f). Qed.

Lemma read_edges_return (rng : list Z) (f : string) (acc edges : list (Z * Z)) :
  read_edges rng f acc = Return edges ↔
  ∃ new : list (Z * Z), edges = acc ++ new ∧ edge_lines (length rng) f new.
Proof.
  revert f acc. induction rng as [|v rng IH]; intros f acc.
  - simpl. split.
    + intros [= <-]. exists []. split; [by rewrite app_nil_r|constructor].
    + intros (new & -> & Hnew). inversion Hnew. by rewrite app_nil_r.
  - rewrite read_edges_step. split.
    + destruct (unpack_edge (split (readline f).1)) as [e|] eqn:He; [|discriminate].
      simpl. intros (new & -> & Hnew)%IH. exists (e :: new).
      split; [by rewrite <-app_assoc|]. simpl. constructor; [|done].
      by apply unpack_edge_return.
    + intros (new & -> & Hnew). simpl in Hnew.
      inversion Hnew as [|k f' e new' Hline Hrest]; subst.
      apply unpack_edge_return in Hline. rewrite Hline. simpl.
      apply IH. exists new'. split; [by rewrite <-app_assoc|done].
Qed.

Lemma read_edges_raise (rng : list Z) (f : string) (acc : list (Z * Z)) (x : exn) :
  read_edges rng f acc = Raise x → parse_error x.
Proof.
  revert f acc. induction rng as [|v rng IH]; intros f acc; [discriminate|].
  rewrite read_edges_step.
  destruct (unpack_edge (split (readline f).1)) as [e|y] eqn:He; simpl.
  - apply IH.
  - intros [= <-]. by apply (unpack_edge_raise _ _ He).
Qed.

Lemma edge_lines_length (k : nat) (f : string) (edges : list (Z * Z)) :
  edge_lines k f edges → length edges = k.
Proof. induction 1; simpl; congruence. Qed.

(** The body of [read_array_of_edges] once the file is open. *)
Lemma read_array_of_edges_open (fs : filesystem) (filename content : string) :
  fs filename = Some content →
  read_array_of_edges fs filename =
  let f0 := universal_newlines content in
  V ← int (readline f0).1;
  if V <? 0 then Raise (ValueError MustBeNonNegative) else
  E ← int (readline (readline f0).2).1;
  if E <? 0 then Raise (ValueError MustBeNonNegative) else
  edges ← read_edges (range E) (readline (readline f0).2).2 [];
  Return (edges, V).
Proof.
  intros Hfs. unfold read_array_of_edges. rewrite Hfs. simpl.
  destruct (readline (universal_newlines content)) as [l0 f1]. simpl.
  destruct (int l0) as [V|]; [|done]. simpl.
  destruct (V <? 0); [done|].
  by destruct (readline f1) as [l1 f2].
Qed.
End Reader.

(** C6. [read_array_of_edges] on an existing file. With [l0] and [l1]
    the first two lines and [f2] the text after them:
    - a first line that reads as a negative [V], or a second line that
      reads as a negative [E], raises the [ValueError] "must be non
      negative";
    - a first or second line that is not an integer literal raises the
      [ValueError] of [int];
    - with [V] and [E] read and not negative, if the next [E] lines are
      edge lines the result is their [E] pairs, in order, with [V]; if
      they are not (a token is not a literal, a line has not two tokens,
      the file ends early), the call raises the [ValueError] of [int] or
      of the unpacking;
    - the pairs are not compared with [V]: a file with one vertex and the
      edge 5 -7 is read. *)
Theorem read_array_of_edges_contract (fs : filesystem) (filename content : string) :
  fs filename = Some content →
  let f0 := universal_newlines content in
  let l0 := (readline f0).1 in
  let l1 := (readline (readline f0).2).1 in
  let f2 := (readline (readline f0).2).2 in
  (∀ V, int l0 = Return V → V < 0 →
     read_array_of_edges fs filename = Raise (ValueError MustBeNonNegative)) ∧
  (∀ V E, int l0 = Return V → 0 ≤ V → int l1 = Return E → E < 0 →
     read_array_of_edges fs filename = Raise (ValueError MustBeNonNegative)) ∧
  (∀ x, int l0 = Raise x →
     read_array_of_edges fs filename = Raise x ∧ parse_error x) ∧
  (∀ V x, int l0 = Return V → 0 ≤ V → int l1 = Raise x →
     read_array_of_edges fs filename = Raise x ∧ parse_error x) ∧
  (∀ V E, int l0 = Return V → 0 ≤ V → int l1 = Return E → 0 ≤ E →
     (∀ edges, edge_lines (Z.to_nat E) f2 edges →
        read_array_of_edges fs filename = Return (edges, V) ∧
        Z.of_nat (length edges) = E) ∧
     ((¬ ∃ edges, edge_lines (Z.to_nat E) f2 edges) →
        ∃ x, read_array_of_edges fs filename = Raise x ∧ parse_error x)) ∧
  read_array_of_edges (λ _, Some (unlines ["1"; "1"; "5 -7"])) filename
  = Return ([(5, -7)], 1).
Proof.
  intros Hfs f0 l0 l1 f2. rewrite (Reader.read_array_of_edges_open fs filename content Hfs).
  fold f0. cbv zeta. fold l0 l1 f2.
  split; [|split; [|split; [|split; [|split]]]].
  - intros V HV Hneg. rewrite HV. simpl. destruct (V <? 0) eqn:H; [done|lia].
  - intros V E HV HV0 HE Hneg. rewrite HV. simpl. destruct (V <? 0) eqn:H; [lia|].
    rewrite HE. simpl. destruct (E <? 0) eqn:H'; [done|lia].
  - intros x Hx. rewrite Hx. split; [done|]. by apply (Reader.int_raise l0).
  - intros V x HV HV0 Hx. rewrite HV. simpl. destruct (V <? 0) eqn:H; [lia|].
    rewrite Hx. split; [done|]. by apply (Reader.int_raise l1).
  - intros V E HV HV0 HE HE0. rewrite HV. simpl. destruct (V <? 0) eqn:H; [lia|].
    rewrite HE. simpl. destruct (E <? 0) eqn:H'; [lia|]. split.
    + intros edges Hedges.
      assert (Hread : read_edges (range E) f2 [] = Return edges).
      { apply Reader.read_edges_return. exists edges. split; [done|].
        unfold range. by rewrite length_seqZ. }
      rewrite Hread. split; [done|].
      apply Reader.edge_lines_length in Hedges. lia.
    + intros Hnone. destruct (read_edges (range E) f2 []) as [edges|x] eqn:Hread.
      * destruct Hnone. apply Reader.read_edges_return in Hread as (new & -> & Hnew).
        exists new. unfold range in Hnew. by rewrite length_seqZ in Hnew.
      * exists x. split; [done|]. by apply (Reader.read_edges_raise _ _ _ _ Hread).
  - reflexivity.
Qed.

Lemma read_array_of_edges_contract_witness :
  read_array_of_edges (λ _, Some (unlines ["3"; "2"; "0 1"; "1 2"])) "graph.txt"
  = Return ([(0, 1); (1, 2)], 3).
Proof.
  pose proof (read_array_of_edges_contract
    (λ _, Some (unlines ["3"; "2"; "0 1"; "1 2"])) "graph.txt"
    (unlines ["3"; "2"; "0 1"; "1 2"]) eq_refl) as H.
  cbv zeta in H. destruct H as (_ & _ & _ & _ & H & _).
  destruct (H 3 2) as [Hok _]; [reflexivity | lia | reflexivity | lia |].
  apply Hok.
  constructor; [by exists "0"%string, "1"%string|].
  constructor; [by exists "1"%string, "2"%string|].
  constructor.
Defined.

(** ** load *)

Module Load.
Section load.
Context `{GraphClass A}.

Lemma add_edges_added (edges : list (Z * Z)) (g g' : graph A) :
  edges_added edges g g' → add_edges edges g = (Return (), g').
Proof.
  induction 1 as [g|v w edges g g1 g2 Hadd _ IH]; [done|].
  cbn [add_edges]. rewrite bind_step. simpl. by rewrite Hadd.
Qed.

Lemma add_edges_raise (before rest : list (Z * Z)) (v w : Z) (g g1 g1' : graph A) (x : exn) :
  edges_added before g g1 → add_edge v w g1 = (Raise x, g1') →
  add_edges (before ++ (v, w) :: rest) g = (Raise x, g1').
Proof.
  intros Hbefore Hadd. induction Hbefore as [g|v' w' edges g g1 g2 Hadd' _ IH].
  - cbn [app add_edges]. rewrite bind_step. simpl. by rewrite Hadd.
  - cbn [app add_edges]. rewrite bind_step. simpl. rewrite Hadd'. by apply IH.
Qed.

Lemma load_read (fs : filesystem) (filename : string) (edges : list (Z * Z)) (n : Z) :
  read_array_of_edges fs filename = Return (edges, n) →
  load fs filename =
  g ← init n;
  match add_edges edges g with
  | (Return _, g') => Return g'
  | (Raise e, _) => Raise e
  end.
Proof. intros Hread. unfold load. by rewrite Hread. Qed.
End load.
End Load.

(** C5. [load], in any variant: an exception of the reader or of the
    constructor is the exception of [load]; otherwise [add_edge] is
    called once per pair read, in the order read, and [load] returns the
    graph these calls leave, or raises the exception of the first call
    that raises. In both variants a file read as the edges 0 1 and 1 2 on
    3 vertices gives [E = 2], the degrees 1, 2 and 1, and no self-loop. *)
Theorem load_contract (fs : filesystem) (filename : string) :
  (∀ `{GraphClass A},
     (∀ x, read_array_of_edges fs filename = Raise x →
        load (A:=A) fs filename = Raise x) ∧
     (∀ edges n, read_array_of_edges fs filename = Return (edges, n) →
        (∀ x, init (A:=A) n = Raise x → load (A:=A) fs filename = Raise x) ∧
        (∀ g0 : graph A, init n = Return g0 →
           (∀ g, edges_added edges g0 g → load fs filename = Return g) ∧
           (∀ before v w rest g1 g1' x,
              edges = before ++ (v, w) :: rest →
              edges_added before g0 g1 →
              add_edge v w g1 = (Raise x, g1') →
              load (A:=A) fs filename = Raise x)))) ∧
  (read_array_of_edges fs filename = Return ([(0, 1); (1, 2)], 3) →
     (∃ g : Graph.t,
        load fs filename = Return g ∧ E g = 2 ∧
        degree 0 g = (Return 1, g) ∧ degree 1 g = (Return 2, g) ∧
        degree 2 g = (Return 1, g) ∧ self_loops g = (Return 0, g)) ∧
     (∃ g : AdjMatrixGraph.t,
        load fs filename = Return g ∧ E g = 2 ∧
        degree 0 g = (Return 1, g) ∧ degree 1 g = (Return 2, g) ∧
        degree 2 g = (Return 1, g) ∧ self_loops g = (Return 0, g))).
Proof.
  split.
  - intros A ?. split.
    + intros x Hread. unfold load. by rewrite Hread.
    + intros edges n Hread. rewrite (Load.load_read fs filename edges n Hread). split.
      * intros x Hinit. by rewrite Hinit.
      * intros g0 Hinit. rewrite Hinit. simpl. split.
        -- intros g Hadded. by rewrite (Load.add_edges_added edges g0 g Hadded).
        -- intros before v w rest g1 g1' x -> Hbefore Hadd.
           by rewrite (Load.add_edges_raise before rest v w g0 g1 g1' x Hbefore Hadd).
  - intros Hread. split.
    + rewrite (Load.load_read fs filename _ _ Hread).
      eexists. split; [reflexivity|]. repeat split.
    + rewrite (Load.load_read fs filename _ _ Hread).
      eexists. split; [reflexivity|]. repeat split.
Qed.

Lemma load_contract_witness :
  (∃ g : Graph.t,
     load (λ _, Some (unlines ["3"; "2"; "0 1"; "1 2"])) "graph.txt" = Return g ∧ E g = 2 ∧
     degree 0 g = (Return 1, g) ∧ degree 1 g = (Return 2, g) ∧
     degree 2 g = (Return 1, g) ∧ self_loops g = (Return 0, g)) ∧
  (∃ g : AdjMatrixGraph.t,
     load (λ _, Some (unlines ["3"; "2"; "0 1"; "1 2"])) "graph.txt" = Return g ∧ E g = 2 ∧
     degree 0 g = (Return 1, g) ∧ degree 1 g = (Return 2, g) ∧
     degree 2 g = (Return 1, g) ∧ self_loops g = (Return 0, g)).
Proof.
  apply (proj2 (load_contract (λ _, Some (unlines ["3"; "2"; "0 1"; "1 2"])) "graph.txt")).
  reflexivity.
Defined.

(** ** Construction with a negative vertex count *)

(** C7. Construction with the vertex count -1: the matrix constructor
    raises (the [ValueError] of the allocation) and the reader refuses a
    file whose first line is -1, but the constructor of the
    adjacency-list graph returns a graph with [V = -1], no edge and no
    adjacency container. *)
Theorem negative_vertex_count_construction :
  init (A:=list (list Z)) (-1) = Return (Build_graph (-1) 0 []) ∧
  init (A:=list (list bool)) (-1) = Raise (ValueError NegativeDimensions) ∧
  read_array_of_edges (λ _, Some (unlines ["-1"; "0"])) "graph.txt"
  = Raise (ValueError MustBeNonNegative).
Proof. repeat split. Qed.

(** * Further properties *)

(** ** Histories of calls *)

Module History.

Lemma add_edges_app `{GraphClass A} (calls1 calls2 : list (Z * Z)) (g : graph A) :
  add_edges (calls1 ++ calls2) g =
  match add_edges calls1 g with
  | (Return _, g') => add_edges calls2 g'
  | (Raise e, g') => (Raise e, g')
  end.
Proof.
  revert g. induction calls1 as [|c calls1 IH]; intros g; [done|].
  cbn [app add_edges]. rewrite !bind_step.
  destruct (add_edge c.1 c.2 g) as [[[]|e] g1]; [apply IH|done].
Qed.

Lemma appended_row (v w : Z) (adj : list (list Z)) (u : nat) (row : list Z) :
  0 ≤ v → 0 ≤ w → adj !! u = Some row →
  alter (λ r, r ++ [w]) (Z.to_nat v)
    (if bool_decide (v ≠ w) then alter (λ r, r ++ [v]) (Z.to_nat w) adj else adj) !! u
  = Some (row ++ appended (Z.of_nat u) (v, w)).
Proof.
  intros Hv Hw Hrow. unfold appended. simpl.
  destruct (decide (Z.of_nat u = v)) as [Huv|Huv].
  - replace (Z.to_nat v) with u by lia. rewrite list_lookup_alter_eq.
    case_bool_decide; [rewrite list_lookup_alter_ne by lia|]; by rewrite Hrow.
  - rewrite list_lookup_alter_ne by lia.
    destruct (decide (Z.of_nat u = w)) as [Huw|Huw].
    + rewrite bool_decide_true by lia. replace (Z.to_nat w) with u by lia.
      rewrite list_lookup_alter_eq. by rewrite Hrow.
    + rewrite app_nil_r.
      case_bool_decide; [rewrite list_lookup_alter_ne by lia|]; done.
Qed.

(** The lists after calls that all have valid endpoints. *)
Lemma list_rows_after (g : Graph.t) (calls : list (Z * Z)) :
  Graph.wf g → Forall (in_range (V g)) calls →
  ∃ g' : Graph.t,
    add_edges calls g = (Return (), g') ∧ Graph.wf g' ∧ V g' = V g ∧
    E g' = E g + Z.of_nat (length calls) ∧
    ∀ (u : nat) (row : list Z),
      _adj g !! u = Some row →
      _adj g' !! u = Some (row ++ neighbours (Z.of_nat u) calls).
Proof.
  revert g. induction calls as [|[v w] calls IH]; intros g Hwf Hcalls.
  - exists g. split; [done|]. split; [done|]. split; [done|]. split; [simpl; lia|].
    intros u row Hrow. unfold neighbours. simpl. by rewrite app_nil_r.
  - apply Forall_cons in Hcalls as [[Hv Hw] Hcalls]. simpl in Hv, Hw.
    pose proof (GraphFacts.add_edge_run g v w Hwf Hv Hw) as Hrun.
    pose proof (GraphFacts.add_edge_wf g v w Hwf) as Hwf1.
    rewrite Hrun in Hwf1. simpl in Hwf1.
    destruct (IH _ Hwf1 Hcalls) as (g' & Hrun' & Hwf' & HV' & HE' & Hrows').
    exists g'. split; [|split; [done|split; [done|split]]].
    + cbn [add_edges]. rewrite bind_step. simpl. rewrite Hrun. exact Hrun'.
    + rewrite HE'. simpl. lia.
    + intros u row Hrow. unfold neighbours. rewrite bind_cons, app_assoc.
      apply Hrows'. simpl. apply appended_row; [lia..|done].
Qed.

Lemma list_fresh (n : Z) :
  init (A:=list (list Z)) n = Return (Build_graph n 0 (replicate (Z.to_nat n) [])).
Proof. cbn [init Graph_class]. unfold Graph.__init__. by rewrite GraphFacts.init_adj. Qed.

(** A reachable adjacency-list graph is the graph of the calls that
    returned: the calls that raised left no trace. *)
Lemma list_reachable_history (n : Z) (g : Graph.t) :
  reachable n g →
  ∃ calls : list (Z * Z),
    Forall (in_range n) calls ∧
    add_edges calls (Build_graph n 0 (replicate (Z.to_nat n) [])) = (Return (), g).
Proof.
  induction 1 as [g Hg|g v w Hreach (calls & Hcalls & Hrun)].
  - exists []. split; [constructor|]. rewrite list_fresh in Hg. by injection Hg as <-.
  - destruct (GraphInvariant.reachable_inv n g Hreach) as (HV & Hwf & _).
    destruct (decide (0 ≤ v < V g ∧ 0 ≤ w < V g)) as [[Hv Hw]|Hn].
    + exists (calls ++ [(v, w)]). split.
      * apply Forall_app. split; [done|]. apply Forall_singleton. split; simpl; lia.
      * rewrite add_edges_app, Hrun. cbn [add_edges]. rewrite bind_step. simpl.
        by destruct (add_edge v w g) as [[[]|e] g1] eqn:Hadd;
          rewrite GraphFacts.add_edge_run in Hadd by done; injection Hadd as <-.
    + exists calls. split; [done|]. by rewrite add_edge_invalid.
Qed.
End History.

(** X1. Build an adjacency-list graph on [n] vertices and make calls of
    [add_edge] that all have valid endpoints. Every call returns, [E] is
    the number of calls, and the list of each vertex [u] holds, in call
    order, the other endpoint of each call at [u], a self-loop once. *)
Theorem list_adjacency_after_calls (n : Z) (calls : list (Z * Z)) :
  Forall (in_range n) calls →
  ∃ g0 g : Graph.t,
    init n = Return g0 ∧ add_edges calls g0 = (Return (), g) ∧
    V g = n ∧ E g = Z.of_nat (length calls) ∧
    ∀ u : Z, 0 ≤ u < n → _adj g !! Z.to_nat u = Some (neighbours u calls).
Proof.
  intros Hcalls.
  set (g0 := Build_graph n 0 (replicate (Z.to_nat n) []) : Graph.t).
  assert (Hwf0 : Graph.wf g0) by (apply (GraphFacts.init_wf n), History.list_fresh).
  destruct (History.list_rows_after g0 calls Hwf0 Hcalls) as (g & Hrun & _ & HV & HE & Hrows).
  exists g0, g. split; [apply History.list_fresh|]. split; [done|]. split; [done|].
  split; [rewrite HE; simpl; lia|].
  intros u Hu. rewrite (Hrows (Z.to_nat u) []).
  - by replace (Z.of_nat (Z.to_nat u)) with u by lia.
  - simpl. apply lookup_replicate_2. lia.
Qed.

Lemma list_adjacency_after_calls_witness :
  ∃ g0 g : Graph.t,
    init 3 = Return g0 ∧ add_edges [(0, 1); (2, 2); (1, 0); (1, 2)] g0 = (Return (), g) ∧
    V g = 3 ∧ E g = 4 ∧
    ∀ u : Z, 0 ≤ u < 3 →
      _adj g !! Z.to_nat u = Some (neighbours u [(0, 1); (2, 2); (1, 0); (1, 2)]).
Proof.
  apply (list_adjacency_after_calls 3 [(0, 1); (2, 2); (1, 0); (1, 2)]).
  repeat constructor; simpl; lia.
Defined.

(** ** Degrees on adjacency lists *)

Module ListDegrees.

Lemma degree_of_row (g : Graph.t) (v : Z) (row : list Z) :
  0 ≤ v < V g → _adj g !! Z.to_nat v = Some row →
  degree v g = (Return (Z.of_nat (length row)), g).
Proof.
  intros Hv Hrow. cbn [degree Graph_class]. unfold Graph.degree.
  rewrite bind_step, validate_vertex_ok by done.
  unfold reads. rewrite (getitem_in_range _ _ row) by (done || lia). reflexivity.
Qed.

Lemma length_concat_alter (adj : list (list Z)) (i : nat) (x : Z) :
  (i < length adj)%nat →
  length (concat (alter (λ r, r ++ [x]) i adj)) = S (length (concat adj)).
Proof.
  revert i. induction adj as [|row adj IH]; intros i Hi; simpl in Hi; [lia|].
  destruct i as [|i].
  - change (alter (λ r, r ++ [x]) 0%nat (row :: adj)) with ((row ++ [x]) :: adj).
    simpl. rewrite !length_app. simpl. lia.
  - change (alter (λ r, r ++ [x]) (S i) (row :: adj))
      with (row :: alter (λ r, r ++ [x]) i adj).
    simpl. rewrite !length_app, IH by lia. lia.
Qed.

Lemma concat_fresh (k : nat) : concat (replicate k ([] : list Z)) = [].
Proof. induction k as [|k IH]; [done|]. exact IH. Qed.

Lemma sum_degrees_loop (g : Graph.t) (m k : nat) :
  Z.of_nat (k + m) = V g → (k + m)%nat = length (_adj g) →
  sum_degrees g (seqZ (Z.of_nat k) (Z.of_nat m))
  = Return (Z.of_nat (length (concat (drop k (_adj g))))).
Proof.
  revert k. induction m as [|m IH]; intros k HV Hlen.
  - rewrite drop_ge by lia. reflexivity.
  - destruct (lookup_lt_is_Some_2 (_adj g) k) as [row Hrow]; [lia|].
    rewrite seqZ_cons by lia. cbn [sum_degrees].
    rewrite (degree_of_row g (Z.of_nat k) row) by (rewrite ?Nat2Z.id; done || lia).
    cbn [fst mbind result_bind].
    replace (Z.succ (Z.of_nat k)) with (Z.of_nat (S k)) by lia.
    replace (Z.pred (Z.of_nat (S m))) with (Z.of_nat m) by lia.
    rewrite IH by lia. cbn [mbind result_bind].
    rewrite (drop_S _ row k Hrow). simpl. rewrite length_app. f_equal. lia.
Qed.

Lemma sum_degrees_run (g : Graph.t) :
  Graph.wf g → sum_degrees g (range (V g)) = Return (Z.of_nat (length (concat (_adj g)))).
Proof.
  intros Hwf. unfold Graph.wf in Hwf. unfold range.
  destruct (decide (0 ≤ V g)) as [HV|HV].
  - replace (V g) with (Z.of_nat (length (_adj g))) at 1 by lia.
    apply (sum_degrees_loop g (length (_adj g)) 0); lia.
  - assert (Hnil : _adj g = []) by (apply length_zero_iff_nil; lia).
    rewrite Hnil. unfold seqZ. replace (Z.to_nat (V g)) with 0%nat by lia. reflexivity.
Qed.

(** The entries of all the lists after calls that all have valid
    endpoints: two more per call, one more per self-loop call. *)
Lemma entries_after (g : Graph.t) (calls : list (Z * Z)) :
  Graph.wf g → Forall (in_range (V g)) calls →
  Z.of_nat (length (concat (_adj (add_edges calls g).2)))
  = Z.of_nat (length (concat (_adj g)))
    + 2 * Z.of_nat (length calls) - Z.of_nat (length (filter is_self_loop calls)).
Proof.
  revert g. induction calls as [|[v w] calls IH]; intros g Hwf Hcalls.
  - simpl. lia.
  - apply Forall_cons in Hcalls as [[Hv Hw] Hcalls]. simpl in Hv, Hw.
    pose proof (GraphFacts.add_edge_run g v w Hwf Hv Hw) as Hrun.
    pose proof (GraphFacts.add_edge_wf g v w Hwf) as Hwf1.
    rewrite Hrun in Hwf1. simpl in Hwf1.
    cbn [add_edges]. rewrite bind_step. simpl. rewrite Hrun.
    rewrite IH by done. simpl. unfold Graph.wf in Hwf.
    rewrite length_concat_alter by (case_bool_decide; rewrite ?length_alter; lia).
    rewrite filter_cons.
    case_bool_decide as Hne; destruct (decide (is_self_loop (v, w))) as [Hs|Hs];
      unfold is_self_loop in Hs; simpl in Hs.
    + done.
    + rewrite length_concat_alter by lia. lia.
    + simpl. lia.
    + destruct Hs. by destruct (decide (v = w)); [|destruct Hne].
Qed.

Lemma length_neighbours (u : Z) (calls : list (Z * Z)) :
  (length (neighbours u calls) ≤ length calls)%nat.
Proof.
  unfold neighbours. induction calls as [|c calls IH]; [done|].
  rewrite bind_cons, length_app. unfold appended at 1.
  repeat case_decide; simpl; lia.
Qed.

Lemma occurrences_neighbours (u x : Z) (calls : list (Z * Z)) :
  u ≠ x → occurrences x (neighbours u calls) = occurrences u (neighbours x calls).
Proof.
  intros Hux. unfold occurrences, neighbours.
  induction calls as [|[v w] calls IH]; [done|].
  rewrite !bind_cons, !filter_app, !length_app, IH. f_equal.
  unfold appended. simpl.
  repeat case_decide; subst; rewrite ?filter_cons, ?filter_nil;
    repeat case_decide; subst; simpl; congruence.
Qed.

(** A reachable graph and the calls that made it. *)
Lemma reachable_rows (n : Z) (g : Graph.t) :
  reachable n g →
  ∃ calls : list (Z * Z),
    Forall (in_range n) calls ∧
    add_edges calls (Build_graph n 0 (replicate (Z.to_nat n) [])) = (Return (), g) ∧
    V g = n ∧ E g = Z.of_nat (length calls) ∧ Graph.wf g ∧
    ∀ u : Z, 0 ≤ u < n → _adj g !! Z.to_nat u = Some (neighbours u calls).
Proof.
  intros Hreach. destruct (History.list_reachable_history n g Hreach) as (calls & Hcalls & Hrun).
  exists calls. split; [done|]. split; [done|].
  set (g0 := Build_graph n 0 (replicate (Z.to_nat n) []) : Graph.t) in *.
  assert (Hwf0 : Graph.wf g0) by (apply (GraphFacts.init_wf n), History.list_fresh).
  destruct (History.list_rows_after g0 calls Hwf0 Hcalls) as (g' & Hrun' & Hwf & HV & HE & Hrows).
  rewrite Hrun in Hrun'. injection Hrun' as <-.
  split; [done|]. split; [rewrite HE; simpl; lia|]. split; [done|].
  intros u Hu. rewrite (Hrows (Z.to_nat u) []).
  - by replace (Z.of_nat (Z.to_nat u)) with u by lia.
  - simpl. apply lookup_replicate_2. lia.
Qed.
End ListDegrees.

(** X2. On an adjacency-list graph with one list per vertex, a returning
    [add_edge v w] adds exactly 1 to the degree of [v] and of [w] (1, not
    2, to the degree of [v] when [w = v]) and leaves every other degree
    as it was. *)
Theorem add_edge_list_degrees (g : Graph.t) (v w u : Z) :
  Graph.wf g → 0 ≤ v < V g → 0 ≤ w < V g → 0 ≤ u < V g →
  ∃ d : Z,
    degree u g = (Return d, g) ∧
    degree u (add_edge v w g).2
    = (Return (d + (if bool_decide (u = v ∨ u = w) then 1 else 0)), (add_edge v w g).2).
Proof.
  intros Hwf Hv Hw Hu. pose proof Hwf as Hlen. unfold Graph.wf in Hlen.
  destruct (lookup_lt_is_Some_2 (_adj g) (Z.to_nat u)) as [row Hrow]; [lia|].
  exists (Z.of_nat (length row)). split; [by apply ListDegrees.degree_of_row|].
  rewrite GraphFacts.add_edge_run by done.
  erewrite ListDegrees.degree_of_row; [| done |
    simpl; apply History.appended_row; [lia | lia | exact Hrow]].
  do 2 f_equal. rewrite length_app. unfold appended. simpl.
  replace (Z.of_nat (Z.to_nat u)) with u by lia.
  destruct (decide (u = v)); [rewrite bool_decide_true by tauto; simpl; lia|].
  destruct (decide (u = w)); [rewrite bool_decide_true by tauto; simpl; lia|].
  rewrite bool_decide_false by tauto. simpl; lia.
Qed.

Lemma add_edge_list_degrees_witness :
  ∃ d : Z,
    degree 1 (Build_graph 3 1 [[1]; [0]; []] : Graph.t) = (Return d, Build_graph 3 1 [[1]; [0]; []]) ∧
    degree 1 (add_edge 1 2 (Build_graph 3 1 [[1]; [0]; []] : Graph.t)).2
    = (Return (d + 1), (add_edge 1 2 (Build_graph 3 1 [[1]; [0]; []] : Graph.t)).2).
Proof.
  apply (add_edge_list_degrees (Build_graph 3 1 [[1]; [0]; []]) 1 2 1);
    [reflexivity | simpl; lia..].
Defined.

(** X3. On every adjacency-list graph reachable from the constructor the
    degrees add up to twice [E] less the number of self-loops: an edge
    between two vertices counts at both, a self-loop once. *)
Theorem list_degree_sum (n : Z) (g : Graph.t) :
  reachable n g →
  ∃ s : Z,
    self_loops g = (Return s, g) ∧
    sum_degrees g (range (V g)) = Return (2 * E g - s).
Proof.
  intros Hreach.
  destruct (ListDegrees.reachable_rows n g Hreach) as (calls & Hcalls & Hrun & HV & HE & Hwf & _).
  set (g0 := Build_graph n 0 (replicate (Z.to_nat n) []) : Graph.t) in *.
  assert (Hwf0 : Graph.wf g0) by (apply (GraphFacts.init_wf n), History.list_fresh).
  destruct (SelfLoops.add_edges_run g0 calls Hwf0 Hcalls) as (g' & Hrun' & _ & _ & _ & Hd).
  rewrite Hrun in Hrun'. injection Hrun' as <-.
  pose proof (ListDegrees.entries_after g0 calls Hwf0 Hcalls) as Hentries.
  rewrite Hrun in Hentries. simpl in Hentries, Hd.
  rewrite SelfLoops.diagonal_fresh in Hd.
  rewrite ListDegrees.concat_fresh in Hentries. simpl in Hentries.
  exists (diagonal 0 (_adj g)). split; [by apply SelfLoops.self_loops_run|].
  rewrite ListDegrees.sum_degrees_run by done. f_equal. lia.
Qed.

Lemma list_degree_sum_witness :
  ∃ s : Z,
    self_loops (add_edge 1 1 (add_edge 0 1 (Build_graph 2 0 [[]; []] : Graph.t)).2).2
    = (Return s, (add_edge 1 1 (add_edge 0 1 (Build_graph 2 0 [[]; []] : Graph.t)).2).2) ∧
    sum_degrees (add_edge 1 1 (add_edge 0 1 (Build_graph 2 0 [[]; []] : Graph.t)).2).2 (range 2)
    = Return (2 * 2 - s).
Proof.
  apply (list_degree_sum 2).
  apply reachable_add_edge, reachable_add_edge, reachable_init. reflexivity.
Defined.

(** X4. On every adjacency-list graph reachable from the constructor the
    adjacency is symmetric with multiplicity: a vertex [x] occurs in the
    list of another vertex [u] as often as [u] occurs in the list of [x]. *)
Theorem list_adjacency_symmetric (n : Z) (g : Graph.t) (u x : Z) (row_u row_x : list Z) :
  reachable n g → 0 ≤ u < n → 0 ≤ x < n → u ≠ x →
  _adj g !! Z.to_nat u = Some row_u → _adj g !! Z.to_nat x = Some row_x →
  occurrences x row_u = occurrences u row_x.
Proof.
  intros Hreach Hu Hx Hux Hru Hrx.
  destruct (ListDegrees.reachable_rows n g Hreach) as (calls & _ & _ & _ & _ & _ & Hrows).
  rewrite (Hrows u Hu) in Hru. rewrite (Hrows x Hx) in Hrx.
  injection Hru as <-. injection Hrx as <-.
  by apply ListDegrees.occurrences_neighbours.
Qed.

Lemma list_adjacency_symmetric_witness :
  occurrences 1 [1; 1] = occurrences 0 [0; 0].
Proof.
  apply (list_adjacency_symmetric 2
    (add_edge 1 0 (add_edge 0 1 (Build_graph 2 0 [[]; []] : Graph.t)).2).2 0 1 [1; 1] [0; 0]);
    [|lia|lia|lia|reflexivity|reflexivity].
  apply reachable_add_edge, reachable_add_edge, reachable_init. reflexivity.
Defined.

(** X5. On every adjacency-list graph reachable from the constructor no
    vertex has more neighbours than there are edges: [max_degree] returns
    a value between 0 and [E]. *)
Theorem list_max_degree_bounded (n : Z) (g : Graph.t) :
  reachable n g →
  ∃ m : Z, max_degree g = (Return m, g) ∧ 0 ≤ m ≤ E g.
Proof.
  intros Hreach.
  destruct (ListDegrees.reachable_rows n g Hreach)
    as (calls & _ & _ & HV & HE & Hwf & Hrows).
  assert (Hdeg : ∀ v, 0 ≤ v < V g →
    ∃ d, degree v g = (Return d, g) ∧ 0 ≤ d ≤ E g).
  { intros v Hv. rewrite HV in Hv. eexists. split.
    - apply ListDegrees.degree_of_row; [lia|]. by apply Hrows.
    - pose proof (ListDegrees.length_neighbours v calls). lia. }
  destruct (max_degree_spec g) as (m & Hm & Hub & Hat & Hnone).
  { intros v Hv. destruct (Hdeg v Hv) as (d & Hd & Hd0). exists d. split; [done|lia]. }
  exists m. split; [done|].
  destruct (decide (0 < V g)) as [Hpos|Hpos].
  - destruct (Hat Hpos) as (v & Hv & Hdv). destruct (Hdeg v Hv) as (d & Hd & Hd0).
    rewrite Hd in Hdv. injection Hdv as ->. done.
  - rewrite Hnone by lia. rewrite HE. lia.
Qed.

Lemma list_max_degree_bounded_witness :
  ∃ m : Z,
    max_degree (add_edge 1 1 (add_edge 0 1 (Build_graph 2 0 [[]; []] : Graph.t)).2).2
    = (Return m, (add_edge 1 1 (add_edge 0 1 (Build_graph 2 0 [[]; []] : Graph.t)).2).2) ∧
    0 ≤ m ≤ E (add_edge 1 1 (add_edge 0 1 (Build_graph 2 0 [[]; []] : Graph.t)).2).2.
Proof.
  apply (list_max_degree_bounded 2).
  apply reachable_add_edge, reachable_add_edge, reachable_init. reflexivity.
Defined.

(** ** Cells and degrees on the matrix *)

Module MatrixCells.

Lemma set_cells_lookup (v w u x : nat) (row : list bool) :
  (x < length row)%nat →
  set_cells v w u row !! x
  = if bool_decide ((u = v ∧ x = w) ∨ (u = w ∧ x = v)) then Some true else row !! x.
Proof.
  intros Hx. unfold set_cells.
  destruct (decide (u = v)) as [->|Huv].
  - destruct (decide (x = w)) as [->|Hxw].
    + rewrite bool_decide_true by tauto. by apply list_lookup_insert_eq.
    + rewrite list_lookup_insert_ne by done.
      destruct (decide (v = w ∧ x = v)) as [[-> ->]|Hn]; [done|].
      by rewrite bool_decide_false by tauto.
  - destruct (decide (u = w)) as [->|Huw].
    + destruct (decide (x = v)) as [->|Hxv].
      * rewrite bool_decide_true by tauto. by apply list_lookup_insert_eq.
      * rewrite list_lookup_insert_ne by done. by rewrite bool_decide_false by tauto.
    + by rewrite bool_decide_false by tauto.
Qed.

Lemma count_true_insert (row : list bool) (j : nat) :
  (j < length row)%nat →
  count_true (<[j := true]> row)
  = (count_true row + (if bool_decide (row !! j = Some true) then 0 else 1))%nat.
Proof.
  unfold count_true. revert j. induction row as [|b row IH]; intros j Hj; simpl in Hj; [lia|].
  destruct j as [|j].
  - simpl. rewrite filter_cons.
    destruct b; [rewrite bool_decide_true by done|rewrite bool_decide_false by done];
      simpl; lia.
  - change (<[S j := true]> (b :: row)) with (b :: <[j := true]> row).
    change ((b :: row) !! S j) with (row !! j).
    rewrite !filter_cons. destruct (decide (b = true)); simpl; rewrite IH by lia; lia.
Qed.

Lemma count_true_set_cells (v w u : nat) (row : list bool) :
  (v < length row)%nat → (w < length row)%nat →
  (count_true (set_cells v w u row) ≤ S (count_true row))%nat.
Proof.
  intros Hv Hw. unfold set_cells.
  repeat case_decide; rewrite ?count_true_insert by done; try case_bool_decide; lia.
Qed.

Lemma count_true_length (row : list bool) : (count_true row ≤ length row)%nat.
Proof. apply length_filter. Qed.

Lemma matrix_degree_of_row (g : AdjMatrixGraph.t) (v : Z) (row : list bool) :
  0 ≤ v < V g → _adj g !! Z.to_nat v = Some row →
  degree v g = (Return (Z.of_nat (count_true row)), g).
Proof.
  intros Hv Hrow. cbn [degree AdjMatrixGraph_class]. unfold AdjMatrixGraph.degree.
  rewrite bind_step, validate_vertex_ok by done.
  unfold reads. rewrite (getitem_in_range _ _ row) by (done || lia). reflexivity.
Qed.

(** The matrix after calls that all have valid endpoints. *)
Lemma matrix_cells_after (g : AdjMatrixGraph.t) (calls : list (Z * Z)) :
  AdjMatrixGraph.wf g → Forall (in_range (V g)) calls →
  ∃ g' : AdjMatrixGraph.t,
    add_edges calls g = (Return (), g') ∧ AdjMatrixGraph.wf g' ∧ V g' = V g ∧
    E g' = E g + Z.of_nat (length calls) ∧
    (∀ u x : Z, 0 ≤ u < V g → 0 ≤ x < V g →
       cell (_adj g') u x
       = cell (_adj g) u x || bool_decide ((u, x) ∈ calls ∨ (x, u) ∈ calls)) ∧
    (∀ (u : nat) (row row' : list bool),
       _adj g !! u = Some row → _adj g' !! u = Some row' →
       (count_true row' ≤ count_true row + length calls)%nat).
Proof.
  revert g. induction calls as [|[v w] calls IH]; intros g Hwf Hcalls.
  - exists g. split; [done|]. split; [done|]. split; [done|]. split; [simpl; lia|]. split.
    + intros u x _ _. rewrite bool_decide_false; [by rewrite orb_false_r|].
      intros [?%elem_of_nil|?%elem_of_nil]; done.
    + intros u row row' Hrow Hrow'. simpl. rewrite Hrow in Hrow'. injection Hrow' as <-. lia.
  - apply Forall_cons in Hcalls as [[Hv Hw] Hcalls]. simpl in Hv, Hw.
    destruct (MatrixFacts.matrix_add_edge_run g v w Hwf Hv Hw)
      as (g1 & Hrun1 & HV1 & HE1 & Hwf1 & Hrows1).
    destruct (IH g1 Hwf1) as (g' & Hrun' & Hwf' & HV' & HE' & Hcells' & Hcount').
    { by rewrite HV1. }
    destruct Hwf as [Hlen Hrows].
    exists g'. split; [|split; [done|split; [congruence|split; [|split]]]].
    + cbn [add_edges]. rewrite bind_step. simpl. rewrite Hrun1. exact Hrun'.
    + rewrite HE', HE1. simpl. lia.
    + intros u x Hu Hx. rewrite Hcells' by (by rewrite HV1).
      destruct (lookup_lt_is_Some_2 (_adj g) (Z.to_nat u)) as [row Hrow]; [lia|].
      assert (Hrl : length row = Z.to_nat (V g)).
      { rewrite Forall_lookup in Hrows. by apply (Hrows (Z.to_nat u)). }
      unfold cell at 1 2. rewrite (Hrows1 _ _ Hrow), Hrow.
      rewrite set_cells_lookup by lia.
      destruct (decide ((u = v ∧ x = w) ∨ (u = w ∧ x = v))) as [Heq|Hne].
      * rewrite bool_decide_true by lia. simpl.
        rewrite (bool_decide_true (_ ∨ _)); [by rewrite orb_true_r|].
        rewrite !elem_of_cons. destruct Heq as [[-> ->]|[-> ->]]; tauto.
      * rewrite bool_decide_false by lia. f_equal. apply bool_decide_ext.
        rewrite !elem_of_cons. split; [tauto|].
        intros [[[= -> ->]|?]|[[= -> ->]|?]]; tauto.
    + intros u row row' Hrow Hrow'.
      assert (Hrl : length row = Z.to_nat (V g)).
      { rewrite Forall_lookup in Hrows. by apply (Hrows u). }
      pose proof (Hcount' u _ row' (Hrows1 _ _ Hrow) Hrow') as Hle.
      pose proof (count_true_set_cells (Z.to_nat v) (Z.to_nat w) u row) as Hstep.
      simpl. lia.
Qed.

Lemma cell_fresh (n : nat) (u x : Z) : cell (replicate n (replicate n false)) u x = false.
Proof.
  unfold cell. destruct (replicate n (replicate n false) !! Z.to_nat u) as [row|] eqn:Hrow; [|done].
  apply lookup_replicate in Hrow as [-> _].
  destruct (replicate n false !! Z.to_nat x) as [b|] eqn:Hb; [|done].
  by apply lookup_replicate in Hb as [-> _].
Qed.

(** A reachable matrix graph is the graph of the calls that returned. *)
Lemma matrix_reachable_history (n : Z) (g : AdjMatrixGraph.t) :
  reachable n g →
  0 ≤ n ∧
  ∃ calls : list (Z * Z),
    Forall (in_range n) calls ∧
    add_edges calls (Build_graph n 0 (replicate (Z.to_nat n) (replicate (Z.to_nat n) false)))
    = (Return (), g).
Proof.
  induction 1 as [g Hg|g v w Hreach (Hn & calls & Hcalls & Hrun)].
  - cbn [init AdjMatrixGraph_class] in Hg. destruct (decide (0 ≤ n)) as [Hn|Hn].
    + split; [done|]. exists []. split; [constructor|].
      rewrite MatrixFacts.matrix_init_run in Hg by done. by injection Hg as <-.
    + rewrite MatrixFacts.matrix_init_negative in Hg by lia. discriminate.
  - split; [done|].
    pose proof (MatrixFacts.matrix_reachable_wf n g Hreach) as Hwf.
    assert (HV : V g = n).
    { pose proof (MatrixFacts.matrix_init_run n Hn) as Hinit.
      destruct (matrix_cells_after _ calls (MatrixFacts.matrix_init_wf n _ Hinit) Hcalls)
        as (g' & Hrun' & _ & HV' & _).
      rewrite Hrun in Hrun'. by injection Hrun' as <-. }
    destruct (decide (0 ≤ v < V g ∧ 0 ≤ w < V g)) as [[Hv Hw]|Hbad].
    + exists (calls ++ [(v, w)]). split.
      * apply Forall_app. split; [done|]. apply Forall_singleton. split; simpl; lia.
      * rewrite History.add_edges_app, Hrun. cbn [add_edges]. rewrite bind_step. simpl.
        destruct (MatrixFacts.matrix_add_edge_run g v w Hwf Hv Hw) as (g1 & -> & _).
        reflexivity.
    + exists calls. split; [done|]. by rewrite add_edge_invalid.
Qed.

Lemma reachable_cells (n : Z) (g : AdjMatrixGraph.t) :
  reachable n g →
  ∃ calls : list (Z * Z),
    Forall (in_range n) calls ∧ 0 ≤ n ∧
    V g = n ∧ E g = Z.of_nat (length calls) ∧ AdjMatrixGraph.wf g ∧
    (∀ u x : Z, 0 ≤ u < n → 0 ≤ x < n →
       cell (_adj g) u x = bool_decide ((u, x) ∈ calls ∨ (x, u) ∈ calls)) ∧
    (∀ (u : nat) (row : list bool),
       _adj g !! u = Some row → (count_true row ≤ length calls)%nat).
Proof.
  intros Hreach.
  destruct (matrix_reachable_history n g Hreach) as (Hn & calls & Hcalls & Hrun).
  pose proof (MatrixFacts.matrix_init_run n Hn) as Hinit.
  destruct (matrix_cells_after _ calls (MatrixFacts.matrix_init_wf n _ Hinit) Hcalls)
    as (g' & Hrun' & Hwf & HV & HE & Hcells & Hcount).
  rewrite Hrun in Hrun'. injection Hrun' as <-.
  exists calls. split; [done|]. split; [done|]. split; [done|].
  split; [rewrite HE; simpl; lia|]. split; [done|]. split.
  - intros u x Hu Hx. rewrite Hcells by done. simpl. by rewrite cell_fresh.
  - intros u row Hrow.
    destruct Hwf as [Hlen _]. simpl in Hcount, HV.
    assert (Hu : (u < Z.to_nat n)%nat) by (apply lookup_lt_Some in Hrow; lia).
    pose proof (Hcount u (replicate (Z.to_nat n) false) row
                  (lookup_replicate_2 _ _ _ Hu) Hrow) as Hle.
    unfold count_true in Hle at 2. rewrite MatrixFacts.filter_true_replicate_false in Hle.
    simpl in Hle. lia.
Qed.

Lemma elem_of_neighbours (u x : Z) (calls : list (Z * Z)) :
  x ∈ neighbours u calls ↔ (u, x) ∈ calls ∨ (x, u) ∈ calls.
Proof.
  unfold neighbours. rewrite list_elem_of_bind. split.
  - intros ([v w] & Hx & Hc). unfold appended in Hx. simpl in Hx.
    destruct (decide (u = v)) as [->|Huv].
    { apply list_elem_of_singleton in Hx as ->. by left. }
    destruct (decide (u = w)) as [->|Huw].
    { apply list_elem_of_singleton in Hx as ->. by right. }
    by apply elem_of_nil in Hx.
  - intros [Hc|Hc].
    + exists (u, x). split; [|done]. unfold appended. simpl.
      rewrite decide_True by done. by apply list_elem_of_singleton.
    + exists (x, u). split; [|done]. unfold appended. simpl.
      destruct (decide (u = x)) as [->|Hne]; [by apply list_elem_of_singleton|].
      rewrite decide_True by done. by apply list_elem_of_singleton.
Qed.
End MatrixCells.

(** X6. Build a matrix graph on [n] vertices and make calls of [add_edge]
    that all have valid endpoints. Every call returns, [E] is the number
    of calls, and the cell of row [u] and column [x] is true exactly when
    some call named [u] and [x], in either order: the matrix records
    neither how often nor in which order the edges were added. *)
Theorem matrix_cells_after_calls (n : Z) (calls : list (Z * Z)) :
  0 ≤ n → Forall (in_range n) calls →
  ∃ g0 g : AdjMatrixGraph.t,
    init n = Return g0 ∧ add_edges calls g0 = (Return (), g) ∧
    V g = n ∧ E g = Z.of_nat (length calls) ∧
    ∀ u x : Z, 0 ≤ u < n → 0 ≤ x < n →
      cell (_adj g) u x = bool_decide ((u, x) ∈ calls ∨ (x, u) ∈ calls).
Proof.
  intros Hn Hcalls.
  pose proof (MatrixFacts.matrix_init_run n Hn) as Hinit.
  destruct (MatrixCells.matrix_cells_after _ calls (MatrixFacts.matrix_init_wf n _ Hinit) Hcalls)
    as (g & Hrun & _ & HV & HE & Hcells & _).
  eexists _, g. split; [exact Hinit|]. split; [exact Hrun|]. split; [exact HV|].
  split; [rewrite HE; simpl; lia|].
  intros u x Hu Hx. rewrite Hcells by done. simpl. by rewrite MatrixCells.cell_fresh.
Qed.

Lemma matrix_cells_after_calls_witness :
  ∃ g0 g : AdjMatrixGraph.t,
    init 3 = Return g0 ∧ add_edges [(0, 1); (1, 0); (2, 2)] g0 = (Return (), g) ∧
    V g = 3 ∧ E g = 3 ∧
    ∀ u x : Z, 0 ≤ u < 3 → 0 ≤ x < 3 →
      cell (_adj g) u x
      = bool_decide ((u, x) ∈ [(0, 1); (1, 0); (2, 2)] ∨ (x, u) ∈ [(0, 1); (1, 0); (2, 2)]).
Proof.
  apply (matrix_cells_after_calls 3 [(0, 1); (1, 0); (2, 2)]); [lia|].
  repeat constructor; simpl; lia.
Defined.

(** X7. The matrix of every matrix graph reachable from the constructor
    is symmetric. *)
Theorem matrix_symmetric (n : Z) (g : AdjMatrixGraph.t) (u x : Z) :
  reachable n g → 0 ≤ u < n → 0 ≤ x < n →
  cell (_adj g) u x = cell (_adj g) x u.
Proof.
  intros Hreach Hu Hx.
  destruct (MatrixCells.reachable_cells n g Hreach) as (calls & _ & _ & _ & _ & _ & Hcells & _).
  rewrite !Hcells by done. apply bool_decide_ext. tauto.
Qed.

Lemma matrix_symmetric_witness :
  cell (_adj (add_edge 0 1 (Build_graph 2 0 [[false; false]; [false; false]] : AdjMatrixGraph.t)).2) 0 1
  = cell (_adj (add_edge 0 1 (Build_graph 2 0 [[false; false]; [false; false]] : AdjMatrixGraph.t)).2) 1 0.
Proof.
  apply (matrix_symmetric 2); [|lia|lia].
  apply reachable_add_edge, reachable_init. reflexivity.
Defined.

(** X8. The two variants record the same relation: after the same calls
    of [add_edge], all with valid endpoints, on fresh graphs on [n]
    vertices, both count the same [E], and a cell of the matrix is true
    exactly when its column is an entry of the adjacency list of its
    row. *)
Theorem variants_agree (n : Z) (calls : list (Z * Z)) :
  0 ≤ n → Forall (in_range n) calls →
  ∃ (l0 l : Graph.t) (m0 m : AdjMatrixGraph.t),
    init n = Return l0 ∧ add_edges calls l0 = (Return (), l) ∧
    init n = Return m0 ∧ add_edges calls m0 = (Return (), m) ∧
    E l = E m ∧
    ∀ u x : Z, 0 ≤ u < n → 0 ≤ x < n →
      cell (_adj m) u x = true ↔
      ∃ row : list Z, _adj l !! Z.to_nat u = Some row ∧ x ∈ row.
Proof.
  intros Hn Hcalls.
  pose proof (MatrixFacts.matrix_init_run n Hn) as Hinit.
  destruct (MatrixCells.matrix_cells_after _ calls (MatrixFacts.matrix_init_wf n _ Hinit) Hcalls)
    as (m & Hrunm & _ & _ & HEm & Hcells & _).
  pose proof (History.list_fresh n) as Hinitl.
  destruct (History.list_rows_after _ calls (GraphFacts.init_wf n _ Hinitl) Hcalls)
    as (l & Hrunl & _ & _ & HEl & Hrows).
  eexists _, l, _, m. split; [exact Hinitl|]. split; [exact Hrunl|].
  split; [exact Hinit|]. split; [exact Hrunm|]. split; [rewrite HEl, HEm; reflexivity|].
  intros u x Hu Hx. rewrite Hcells by done. simpl. rewrite MatrixCells.cell_fresh. simpl.
  rewrite bool_decide_eq_true, <-MatrixCells.elem_of_neighbours.
  rewrite (Hrows (Z.to_nat u) []) by (simpl; apply lookup_replicate_2; lia).
  replace (Z.of_nat (Z.to_nat u)) with u by lia. simpl. split.
  - intros Hin. by eexists.
  - by intros (row & [= <-] & Hin).
Qed.

Lemma variants_agree_witness :
  ∃ (l0 l : Graph.t) (m0 m : AdjMatrixGraph.t),
    init 2 = Return l0 ∧ add_edges [(0, 1); (0, 1)] l0 = (Return (), l) ∧
    init 2 = Return m0 ∧ add_edges [(0, 1); (0, 1)] m0 = (Return (), m) ∧
    E l = E m ∧
    ∀ u x : Z, 0 ≤ u < 2 → 0 ≤ x < 2 →
      cell (_adj m) u x = true ↔
      ∃ row : list Z, _adj l !! Z.to_nat u = Some row ∧ x ∈ row.
Proof.
  apply (variants_agree 2 [(0, 1); (0, 1)]); [lia|].
  repeat constructor; simpl; lia.
Defined.

(** X9. On a matrix graph of [V] rows of [V] cells, a returning
    [add_edge v w] adds 1 to the degree of [v] when the cell of [v] and
    [w] was not set, and leaves it as it was when the edge was there. *)
Theorem matrix_add_edge_degree (g : AdjMatrixGraph.t) (v w : Z) :
  AdjMatrixGraph.wf g → 0 ≤ v < V g → 0 ≤ w < V g →
  ∃ d : Z,
    degree v g = (Return d, g) ∧
    degree v (add_edge v w g).2
    = (Return (d + (if cell (_adj g) v w then 0 else 1)), (add_edge v w g).2).
Proof.
  intros Hwf Hv Hw.
  destruct (MatrixFacts.matrix_add_edge_run g v w Hwf Hv Hw)
    as (g' & Hrun & HV' & _ & _ & Hrows).
  rewrite Hrun. cbn [snd]. destruct Hwf as [Hlen Hrl].
  destruct (lookup_lt_is_Some_2 (_adj g) (Z.to_nat v)) as [row Hrow]; [lia|].
  assert (Hrowlen : length row = Z.to_nat (V g)).
  { rewrite Forall_lookup in Hrl. by apply (Hrl (Z.to_nat v)). }
  exists (Z.of_nat (count_true row)). split; [by apply MatrixCells.matrix_degree_of_row|].
  rewrite (MatrixCells.matrix_degree_of_row g' v _ ltac:(lia) (Hrows _ _ Hrow)).
  do 2 f_equal. unfold set_cells. rewrite decide_True by done.
  rewrite MatrixCells.count_true_insert by lia.
  unfold cell. rewrite Hrow.
  destruct (row !! Z.to_nat w) as [[]|] eqn:Hcell.
  - rewrite bool_decide_true by done. simpl. lia.
  - rewrite bool_decide_false by done. simpl. lia.
  - apply lookup_ge_None in Hcell. lia.
Qed.

Lemma matrix_add_edge_degree_witness :
  ∃ d : Z,
    degree 0 (Build_graph 2 1 [[false; true]; [true; false]] : AdjMatrixGraph.t)
    = (Return d, Build_graph 2 1 [[false; true]; [true; false]]) ∧
    degree 0 (add_edge 0 1 (Build_graph 2 1 [[false; true]; [true; false]] : AdjMatrixGraph.t)).2
    = (Return (d + 0),
       (add_edge 0 1 (Build_graph 2 1 [[false; true]; [true; false]] : AdjMatrixGraph.t)).2).
Proof.
  apply (matrix_add_edge_degree (Build_graph 2 1 [[false; true]; [true; false]]) 0 1);
    [split; [reflexivity|repeat constructor] | simpl; lia | simpl; lia].
Defined.

(** X10. On every matrix graph reachable from the constructor
    [max_degree] returns a value between 0 and [E], and at most [V]. *)
Theorem matrix_max_degree_bounded (n : Z) (g : AdjMatrixGraph.t) :
  reachable n g →
  ∃ m : Z, max_degree g = (Return m, g) ∧ 0 ≤ m ≤ E g ∧ m ≤ V g.
Proof.
  intros Hreach.
  destruct (MatrixCells.reachable_cells n g Hreach)
    as (calls & _ & Hn & HV & HE & Hwf & _ & Hcount).
  assert (Hdeg : ∀ v, 0 ≤ v < V g →
    ∃ d, degree v g = (Return d, g) ∧ 0 ≤ d ≤ E g ∧ d ≤ V g).
  { intros v Hv. destruct Hwf as [Hlen Hrl].
    destruct (lookup_lt_is_Some_2 (_adj g) (Z.to_nat v)) as [row Hrow]; [lia|].
    exists (Z.of_nat (count_true row)). split; [by apply MatrixCells.matrix_degree_of_row|].
    pose proof (Hcount _ _ Hrow). pose proof (MatrixCells.count_true_length row).
    rewrite Forall_lookup in Hrl. pose proof (Hrl _ _ Hrow). simpl in *. lia. }
  destruct (max_degree_spec g) as (m & Hm & Hub & Hat & Hnone).
  { intros v Hv. destruct (Hdeg v Hv) as (d & Hd & Hd0 & _). exists d. split; [done|lia]. }
  exists m. split; [done|].
  destruct (decide (0 < V g)) as [Hpos|Hpos].
  - destruct (Hat Hpos) as (v & Hv & Hdv). destruct (Hdeg v Hv) as (d & Hd & Hd0).
    rewrite Hd in Hdv. injection Hdv as ->. done.
  - rewrite Hnone by lia. rewrite HE. lia.
Qed.

Lemma matrix_max_degree_bounded_witness :
  ∃ m : Z,
    max_degree (add_edge 0 1 (Build_graph 2 0 [[false; false]; [false; false]] : AdjMatrixGraph.t)).2
    = (Return m, (add_edge 0 1 (Build_graph 2 0 [[false; false]; [false; false]] : AdjMatrixGraph.t)).2) ∧
    0 ≤ m ≤ E (add_edge 0 1 (Build_graph 2 0 [[false; false]; [false; false]] : AdjMatrixGraph.t)).2 ∧
    m ≤ V (add_edge 0 1 (Build_graph 2 0 [[false; false]; [false; false]] : AdjMatrixGraph.t)).2.
Proof.
  apply (matrix_max_degree_bounded 2).
  apply reachable_add_edge, reachable_init. reflexivity.
Defined.

(** ** degree and load on reachable graphs *)

Module LoadFacts.

Lemma read_nonnegative (fs : filesystem) (filename : string) (edges : list (Z * Z)) (n : Z) :
  read_array_of_edges fs filename = Return (edges, n) → 0 ≤ n.
Proof.
  destruct (fs filename) as [content|] eqn:Hfs.
  - rewrite (Reader.read_array_of_edges_open fs filename content Hfs). cbv zeta.
    destruct (int (readline (universal_newlines content)).1) as [V|];
      cbn [mbind result_bind]; [|discriminate].
    destruct (V <? 0) eqn:HV; [discriminate|].
    destruct (int _) as [E|]; cbn [mbind result_bind]; [|discriminate].
    destruct (E <? 0); [discriminate|].
    destruct (read_edges _ _ _); cbn [mbind result_bind]; [|discriminate].
    intros [= _ <-]. lia.
  - unfold read_array_of_edges. rewrite Hfs. discriminate.
Qed.

(** The loop of [load] stops at the first pair with an endpoint out of
    range, with the exception of [validate_vertex]. *)
Lemma add_edges_first_invalid `{GraphClass A} (g g1 : graph A)
    (before rest : list (Z * Z)) (v w : Z) :
  add_edges before g = (Return (), g1) → ¬ in_range (V g1) (v, w) →
  add_edges (before ++ (v, w) :: rest) g
  = (Raise (ValueError (NotBetween (if decide (0 ≤ v < V g1) then w else v) (V g1))), g1).
Proof.
  intros Hbefore Hbad. rewrite History.add_edges_app, Hbefore.
  cbn [add_edges]. rewrite bind_step. simpl.
  rewrite add_edge_invalid by exact Hbad. reflexivity.
Qed.
End LoadFacts.

(** X11. On every graph reachable from the constructor, in both
    variants, [degree v] returns a count that is not negative when [v] is
    a vertex and raises the [ValueError] of [validate_vertex] when it is
    not; it never raises anything else and never changes the graph. *)
Theorem degree_on_reachable (n v : Z) :
  (∀ g : Graph.t, reachable n g →
     if decide (0 ≤ v < n) then ∃ d : Z, degree v g = (Return d, g) ∧ 0 ≤ d
     else degree v g = (Raise (ValueError (NotBetween v n)), g)) ∧
  (∀ g : AdjMatrixGraph.t, reachable n g →
     if decide (0 ≤ v < n) then ∃ d : Z, degree v g = (Return d, g) ∧ 0 ≤ d
     else degree v g = (Raise (ValueError (NotBetween v n)), g)).
Proof.
  split; intros g Hreach.
  - destruct (GraphInvariant.reachable_inv n g Hreach) as (HV & Hwf & _).
    destruct (decide (0 ≤ v < n)) as [Hv|Hv].
    + destruct (list_degree_run g v Hwf) as (row & _ & Hd); [lia|].
      eexists. split; [exact Hd|lia].
    + cbn [degree Graph_class]. unfold Graph.degree.
      rewrite bind_step, validate_vertex_raise by lia. by rewrite HV.
  - pose proof (MatrixFacts.matrix_reachable_wf n g Hreach) as Hwf.
    destruct (MatrixCells.reachable_cells n g Hreach) as (_ & _ & _ & HV & _).
    destruct (decide (0 ≤ v < n)) as [Hv|Hv].
    + destruct (matrix_degree_run g v Hwf) as (row & _ & Hd); [lia|].
      eexists. split; [exact Hd|lia].
    + cbn [degree AdjMatrixGraph_class]. unfold AdjMatrixGraph.degree.
      rewrite bind_step, validate_vertex_raise by lia. by rewrite HV.
Qed.

Lemma degree_on_reachable_witness :
  degree 2 (add_edge 0 1 (Build_graph 2 0 [[]; []] : Graph.t)).2
  = (Raise (ValueError (NotBetween 2 2)), (add_edge 0 1 (Build_graph 2 0 [[]; []] : Graph.t)).2).
Proof.
  apply (proj1 (degree_on_reachable 2 2)).
  apply reachable_add_edge, reachable_init. reflexivity.
Defined.

(** X12. [load] on a file that the reader accepts, as the pairs [edges]
    on [n] vertices. When every pair has both endpoints in [0, n),
    [load] returns, in both variants, a graph with [V = n] and [E] the
    number of pairs, whose lists (whose cells) are those of the calls
    [edges]. Otherwise it raises the [ValueError] of [validate_vertex]
    for the first endpoint, in reading order, that is out of range. *)
Theorem load_in_range (fs : filesystem) (filename : string) (edges : list (Z * Z)) (n : Z) :
  read_array_of_edges fs filename = Return (edges, n) →
  (Forall (in_range n) edges →
     (∃ g : Graph.t,
        load fs filename = Return g ∧ V g = n ∧ E g = Z.of_nat (length edges) ∧
        ∀ u : Z, 0 ≤ u < n → _adj g !! Z.to_nat u = Some (neighbours u edges)) ∧
     (∃ g : AdjMatrixGraph.t,
        load fs filename = Return g ∧ V g = n ∧ E g = Z.of_nat (length edges) ∧
        ∀ u x : Z, 0 ≤ u < n → 0 ≤ x < n →
          cell (_adj g) u x = bool_decide ((u, x) ∈ edges ∨ (x, u) ∈ edges))) ∧
  (∀ before v w rest,
     edges = before ++ (v, w) :: rest →
     Forall (in_range n) before → ¬ in_range n (v, w) →
     load (A:=list (list Z)) fs filename
     = Raise (ValueError (NotBetween (if decide (0 ≤ v < n) then w else v) n)) ∧
     load (A:=list (list bool)) fs filename
     = Raise (ValueError (NotBetween (if decide (0 ≤ v < n) then w else v) n))).
Proof.
  intros Hread. pose proof (LoadFacts.read_nonnegative fs filename edges n Hread) as Hn.
  pose proof (History.list_fresh n) as Hinitl.
  pose proof (MatrixFacts.matrix_init_run n Hn) as Hinitm.
  pose proof (GraphFacts.init_wf n _ Hinitl) as Hwfl.
  pose proof (MatrixFacts.matrix_init_wf n _ Hinitm) as Hwfm.
  rewrite !(Load.load_read fs filename edges n Hread).
  rewrite Hinitl. cbn [init AdjMatrixGraph_class]. rewrite Hinitm. cbn [mbind result_bind].
  split.
  - intros Hedges. split.
    + destruct (History.list_rows_after _ edges Hwfl Hedges) as (g & -> & _ & HV & HE & Hrows).
      exists g. split; [done|]. split; [done|]. split; [rewrite HE; simpl; lia|].
      intros u Hu. rewrite (Hrows (Z.to_nat u) []) by (simpl; apply lookup_replicate_2; lia).
      by replace (Z.of_nat (Z.to_nat u)) with u by lia.
    + destruct (MatrixCells.matrix_cells_after _ edges Hwfm Hedges)
        as (g & -> & _ & HV & HE & Hcells & _).
      exists g. split; [done|]. split; [done|]. split; [rewrite HE; simpl; lia|].
      intros u x Hu Hx. rewrite Hcells by done. simpl. by rewrite MatrixCells.cell_fresh.
  - intros before v w rest -> Hbefore Hbad. split.
    + destruct (History.list_rows_after _ before Hwfl Hbefore) as (g1 & Hrun & _ & HV & _).
      simpl in HV. rewrite (LoadFacts.add_edges_first_invalid _ g1) by (rewrite ?HV; done).
      by rewrite HV.
    + destruct (MatrixCells.matrix_cells_after _ before Hwfm Hbefore) as (g1 & Hrun & _ & HV & _).
      simpl in HV. rewrite (LoadFacts.add_edges_first_invalid _ g1) by (rewrite ?HV; done).
      by rewrite HV.
Qed.

Lemma load_in_range_witness :
  load (A:=list (list Z)) (λ _, Some (unlines ["2"; "2"; "0 1"; "1 2"])) "graph.txt"
  = Raise (ValueError (NotBetween 2 2)) ∧
  load (A:=list (list bool)) (λ _, Some (unlines ["2"; "2"; "0 1"; "1 2"])) "graph.txt"
  = Raise (ValueError (NotBetween 2 2)).
Proof.
  apply (proj2 (load_in_range (λ _, Some (unlines ["2"; "2"; "0 1"; "1 2"])) "graph.txt"
                  [(0, 1); (1, 2)] 2 eq_refl) [(0, 1)] 1 2 []);
    [reflexivity | repeat constructor; simpl; lia | unfold in_range; simpl; lia].
Defined.

(** ** What the reader reads of a file *)

Module ReaderText.

Lemma universal_newlines_other (a : ascii) (s : string) :
  Ascii.eqb a CR = false →
  universal_newlines (String a s) = String a (universal_newlines s).
Proof. intros Ha. cbn [universal_newlines]. by rewrite Ha. Qed.

Lemma universal_newlines_cr_lf (s : string) :
  universal_newlines (String CR (String LF s)) = String LF (universal_newlines s).
Proof. reflexivity. Qed.

Lemma universal_newlines_cr_other (d : ascii) (s : string) :
  Ascii.eqb d LF = false →
  universal_newlines (String CR (String d s)) = String LF (universal_newlines (String d s)).
Proof.
  intros Hd. change (universal_newlines (String CR (String d s)))
    with (if Ascii.eqb d LF then String LF (universal_newlines s)
          else String LF (universal_newlines (String d s))).
  by rewrite Hd.
Qed.

Lemma universal_newlines_lf (c rest : string) :
  universal_newlines (c +:+ String LF rest)
  = universal_newlines (c +:+ String LF EmptyString) +:+ universal_newlines rest.
Proof.
  induction c as [|a c IH]; [reflexivity|].
  change (String a c +:+ String LF rest) with (String a (c +:+ String LF rest)).
  change (String a c +:+ String LF EmptyString) with (String a (c +:+ String LF EmptyString)).
  destruct (Ascii.eqb a CR) eqn:Ha.
  - apply Ascii.eqb_eq in Ha as ->. destruct c as [|d c'].
    + reflexivity.
    + change (String d c' +:+ String LF rest) with (String d (c' +:+ String LF rest)) in *.
      change (String d c' +:+ String LF EmptyString)
        with (String d (c' +:+ String LF EmptyString)) in *.
      destruct (Ascii.eqb d LF) eqn:Hd.
      * apply Ascii.eqb_eq in Hd as ->. rewrite !universal_newlines_cr_lf.
        rewrite !(universal_newlines_other LF) in IH by reflexivity.
        injection IH as IH. cbn [String.append]. by rewrite IH.
      * rewrite !universal_newlines_cr_other by done. cbn [String.append]. by rewrite IH.
  - rewrite !(universal_newlines_other a) by done. cbn [String.append]. by rewrite IH.
Qed.

Lemma complete_app_lf (t : string) : complete (t +:+ String LF EmptyString) = true.
Proof.
  induction t as [|a t IH]; [reflexivity|].
  change (String a t +:+ String LF EmptyString) with (String a (t +:+ String LF EmptyString)).
  cbn [complete]. by destruct (t +:+ String LF EmptyString) eqn:Ht; [destruct t|].
Qed.

Lemma universal_newlines_ends_lf (c : string) :
  ∃ t : string, universal_newlines (c +:+ String LF EmptyString) = t +:+ String LF EmptyString.
Proof.
  induction c as [|a c (t & IH)]; [by exists EmptyString|].
  change (String a c +:+ String LF EmptyString) with (String a (c +:+ String LF EmptyString)).
  destruct (Ascii.eqb a CR) eqn:Ha.
  - apply Ascii.eqb_eq in Ha as ->. destruct c as [|d c'].
    + by exists EmptyString.
    + change (String d c' +:+ String LF EmptyString)
        with (String d (c' +:+ String LF EmptyString)) in *.
      destruct (Ascii.eqb d LF) eqn:Hd.
      * apply Ascii.eqb_eq in Hd as ->. rewrite universal_newlines_cr_lf.
        rewrite (universal_newlines_other LF) in IH by reflexivity. by exists t.
      * rewrite universal_newlines_cr_other by done. exists (String LF t).
        cbn [String.append]. by rewrite IH.
  - rewrite (universal_newlines_other a) by done. exists (String a t).
    cbn [String.append]. by rewrite IH.
Qed.

Lemma readline_complete (t x : string) :
  complete t = true → t ≠ EmptyString →
  readline (t +:+ x) = ((readline t).1, (readline t).2 +:+ x) ∧
  complete (readline t).2 = true.
Proof.
  induction t as [|a t IH]; intros Hc Hne; [done|].
  change (String a t +:+ x) with (String a (t +:+ x)).
  cbn [readline]. destruct (Ascii.eqb a LF) eqn:Ha.
  - split; [done|]. cbn [snd]. destruct t; [done|exact Hc].
  - destruct t as [|b t'].
    + cbn [complete] in Hc. congruence.
    + destruct IH as [IH1 IH2]; [exact Hc|done|].
      rewrite IH1. destruct (readline (String b t')) as [l r]. split; [done|exact IH2].
Qed.

Lemma read_edges_app (rng : list Z) (t x : string) (acc r : list (Z * Z)) :
  complete t = true →
  read_edges rng t acc = Return r → read_edges rng (t +:+ x) acc = Return r.
Proof.
  revert t acc. induction rng as [|v rng IH]; intros t acc Hc; [done|].
  rewrite !Reader.read_edges_step.
  destruct (decide (t = EmptyString)) as [->|Hne]; [discriminate|].
  destruct (readline_complete t x Hc Hne) as [-> Hc']. cbn [fst snd].
  destruct (unpack_edge (split (readline t).1)); [|done].
  cbn [mbind result_bind]. by apply IH.
Qed.

(** The reader on an open file depends on the text only. *)
Lemma read_of_text (fs fs' : filesystem) (filename c c' : string) :
  fs filename = Some c → fs' filename = Some c' →
  universal_newlines c' = universal_newlines c →
  read_array_of_edges fs' filename = read_array_of_edges fs filename.
Proof.
  intros Hfs Hfs' Heq.
  rewrite (Reader.read_array_of_edges_open fs filename c Hfs).
  rewrite (Reader.read_array_of_edges_open fs' filename c' Hfs').
  by rewrite Heq.
Qed.

Lemma universal_newlines_crlf (c : string) :
  has_cr c = false → universal_newlines (crlf c) = c ∧ universal_newlines c = c.
Proof.
  induction c as [|a c IH]; intros Hcr; [done|].
  cbn [has_cr] in Hcr. apply orb_false_elim in Hcr as [Ha Hc].
  destruct (IH Hc) as [IH1 IH2].
  assert (Hun : universal_newlines (String a c) = String a c).
  { cbn [universal_newlines]. rewrite Ha. by rewrite IH2. }
  split; [|exact Hun].
  cbn [crlf]. destruct (Ascii.eqb a LF) eqn:Hlf.
  - apply Ascii.eqb_eq in Hlf as ->. rewrite universal_newlines_cr_lf. by rewrite IH1.
  - rewrite universal_newlines_other by done. by rewrite IH1.
Qed.
End ReaderText.

(** X13. The reader stops after the last edge line: when it accepts a
    file that ends with a newline, it returns the same pairs and vertex
    count for that file followed by any text at all. *)
Theorem read_ignores_trailing_text (fs fs' : filesystem) (filename c extra : string)
    (r : list (Z * Z) * Z) :
  fs filename = Some (c +:+ String LF EmptyString) →
  fs' filename = Some (c +:+ String LF extra) →
  read_array_of_edges fs filename = Return r →
  read_array_of_edges fs' filename = Return r.
Proof.
  intros Hfs Hfs'.
  rewrite (Reader.read_array_of_edges_open fs filename _ Hfs).
  rewrite (Reader.read_array_of_edges_open fs' filename _ Hfs'). cbv zeta.
  rewrite (ReaderText.universal_newlines_lf c extra).
  destruct (ReaderText.universal_newlines_ends_lf c) as (t & ->).
  generalize (universal_newlines extra). intros x.
  set (f0 := t +:+ String LF EmptyString).
  assert (Hc0 : complete f0 = true) by apply ReaderText.complete_app_lf.
  assert (Hne0 : f0 ≠ EmptyString) by (unfold f0; by destruct t).
  destruct (ReaderText.readline_complete f0 x Hc0 Hne0) as [-> Hc1]. cbn [fst snd].
  destruct (int (readline f0).1) as [V|]; cbn [mbind result_bind]; [|done].
  destruct (V <? 0); [done|].
  destruct (decide ((readline f0).2 = EmptyString)) as [->|Hne1]; [discriminate|].
  destruct (ReaderText.readline_complete _ x Hc1 Hne1) as [-> Hc2]. cbn [fst snd].
  destruct (int (readline (readline f0).2).1) as [E|]; cbn [mbind result_bind]; [|done].
  destruct (E <? 0); [done|].
  destruct (read_edges (range E) (readline (readline f0).2).2 []) as [edges|] eqn:Hedges;
    cbn [mbind result_bind]; [|done].
  by rewrite (ReaderText.read_edges_app _ _ x _ _ Hc2 Hedges).
Qed.

Lemma read_ignores_trailing_text_witness :
  read_array_of_edges (λ _, Some (unlines ["2"; "1"; "0 1"; "not an edge"])) "graph.txt"
  = Return ([(0, 1)], 2).
Proof.
  apply (read_ignores_trailing_text (λ _, Some (unlines ["2"; "1"; "0 1"]))
           (λ _, Some (unlines ["2"; "1"; "0 1"; "not an edge"])) "graph.txt"
           ("2" +:+ String LF ("1" +:+ String LF "0 1")) (unlines ["not an edge"]));
    reflexivity.
Defined.

(** X14. A file saved with DOS line ends reads as the same file with
    plain newlines: for a text without carriage returns, the reader
    gives the same outcome on the text and on the text with every
    newline written as carriage return, newline, and so does [load]. *)
Theorem read_crlf (fs fs' : filesystem) (filename c : string) :
  has_cr c = false →
  fs filename = Some c → fs' filename = Some (crlf c) →
  read_array_of_edges fs' filename = read_array_of_edges fs filename ∧
  load (A:=list (list Z)) fs' filename = load fs filename ∧
  load (A:=list (list bool)) fs' filename = load fs filename.
Proof.
  intros Hcr Hfs Hfs'.
  assert (Hread : read_array_of_edges fs' filename = read_array_of_edges fs filename).
  { apply (ReaderText.read_of_text fs fs' filename c (crlf c) Hfs Hfs').
    destruct (ReaderText.universal_newlines_crlf c Hcr) as [-> ->]. reflexivity. }
  split; [exact Hread|]. unfold load. by rewrite Hread.
Qed.

Lemma read_crlf_witness :
  read_array_of_edges (λ _, Some (crlf (unlines ["2"; "1"; "0 1"]))) "graph.txt"
  = read_array_of_edges (λ _, Some (unlines ["2"; "1"; "0 1"])) "graph.txt".
Proof.
  apply (read_crlf (λ _, Some (unlines ["2"; "1"; "0 1"]))
           (λ _, Some (crlf (unlines ["2"; "1"; "0 1"]))) "graph.txt"
           (unlines ["2"; "1"; "0 1"])); reflexivity.
Defined.

(** ** Conversion to networkx *)

Module NxFacts.
#[local] Set Warnings "-clear-no-such-hyp".

Lemma add_edge_lookup (G : nx.Graph) (u v y : Z) :
  nx.add_edge G u v !! y =
  if decide (y = u ∨ y = v)
  then Some (default ∅ (G !! y)
             ∪ (if decide (y = u) then {[v]} else ∅)
             ∪ (if decide (y = v) then {[u]} else ∅))
  else G !! y.
Proof.
  unfold nx.add_edge.
  set (G1 := if decide (is_Some (G !! u)) then G else <[u := ∅]> G).
  set (G2 := if decide (is_Some (G1 !! v)) then G1 else <[v := ∅]> G1).
  assert (H1 : ∀ z, G1 !! z = if decide (z = u) then Some (default ∅ (G !! u)) else G !! z).
  { intros z. unfold G1. destruct (decide (is_Some (G !! u))) as [[s Hs]|Hn].
    - destruct (decide (z = u)) as [->|]; [by rewrite Hs|done].
    - apply eq_None_not_Some in Hn. cbv iota. rewrite lookup_insert.
      destruct (decide (u = z)) as [->|]; [by rewrite decide_True, Hn|].
      by rewrite decide_False. }
  assert (H2 : ∀ z, G2 !! z = if decide (z = v) then Some (default ∅ (G1 !! v)) else G1 !! z).
  { intros z. unfold G2. destruct (decide (is_Some (G1 !! v))) as [[s Hs]|Hn].
    - destruct (decide (z = v)) as [->|]; [by rewrite Hs|done].
    - apply eq_None_not_Some in Hn. cbv iota. rewrite lookup_insert.
      destruct (decide (v = z)) as [->|]; [by rewrite decide_True, Hn|].
      by rewrite decide_False. }
  rewrite !lookup_alter, !H2, !H1. clear H1 H2. clearbody G1 G2.
  repeat case_decide; simplify_eq; simpl; try tauto; f_equal; set_solver.
Qed.

Lemma has_edge_add_edge (G : nx.Graph) (u v a b : Z) :
  nx.has_edge (nx.add_edge G u v) a b = true ↔
  nx.has_edge G a b = true ∨ (a = u ∧ b = v) ∨ (a = v ∧ b = u).
Proof.
  unfold nx.has_edge. rewrite add_edge_lookup.
  destruct (G !! a) as [s|] eqn:Hs; simpl;
    repeat case_decide; rewrite ?bool_decide_eq_true; set_solver.
Qed.

Lemma node_add_edge (G : nx.Graph) (u v a : Z) :
  is_Some (nx.add_edge G u v !! a) ↔ is_Some (G !! a) ∨ a = u ∨ a = v.
Proof.
  rewrite add_edge_lookup. case_decide as Ha.
  - split; [tauto|]. by eexists.
  - tauto.
Qed.

Lemma has_edge_node (G : nx.Graph) (u x : Z) :
  nx.has_edge G u x = true → is_Some (G !! u).
Proof. unfold nx.has_edge. destruct (G !! u); [by eexists|done]. Qed.

Lemma graph_of_empty : graph_of [] nx.empty.
Proof.
  split.
  - intros u x. unfold nx.has_edge, nx.empty. rewrite lookup_empty. set_solver.
  - intros u. unfold nx.empty. rewrite lookup_empty. split; [by intros [? ?]|].
    intros (x & [H|H]); by apply elem_of_nil in H.
Qed.

Lemma graph_of_edge (P : list (Z * Z)) (G : nx.Graph) (v w : Z) :
  graph_of P G → graph_of (P ++ [(v, w)]) (to_networkx_edge G v w).
Proof.
  intros [Hedges Hnodes]. unfold to_networkx_edge.
  destruct (nx.has_edge G v w) eqn:Hvw.
  - apply Hedges in Hvw. split.
    + intros u x. rewrite Hedges. set_solver.
    + intros u. rewrite Hnodes. split; intros (x & Hx).
      * exists x. set_solver.
      * rewrite !elem_of_app, !list_elem_of_singleton in Hx.
        destruct Hx as [[Hx|[= -> ->]]|[Hx|[= -> ->]]]; eauto; destruct Hvw; eauto.
  - split.
    + intros u x. rewrite has_edge_add_edge, Hedges. set_solver.
    + intros u. rewrite node_add_edge, Hnodes. split.
      * intros [(x & Hx)|[-> | ->]]; [exists x|exists w|exists v]; set_solver.
      * intros (x & Hx). rewrite !elem_of_app, !list_elem_of_singleton in Hx.
        destruct Hx as [[Hx|[= -> ->]]|[Hx|[= -> ->]]]; eauto.
Qed.

Lemma graph_of_row (P : list (Z * Z)) (G : nx.Graph) (v : Z) (row : list Z) :
  graph_of P G →
  graph_of (P ++ ((λ w, (v, w)) <$> row)) (GraphNx.to_networkx_row v row G).
Proof.
  revert P G. induction row as [|w row IH]; intros P G HG.
  - simpl. by rewrite app_nil_r.
  - cbn [GraphNx.to_networkx_row fmap list_fmap].
    change ((v, w) :: ((λ w0, (v, w0)) <$> row)) with ([(v, w)] ++ ((λ w0, (v, w0)) <$> row)).
    rewrite app_assoc. apply IH. by apply graph_of_edge.
Qed.

Lemma list_loop (adj : list (list Z)) (nbrs : Z → list Z) (vs : list Z)
    (P : list (Z * Z)) (G : nx.Graph) :
  (∀ v, v ∈ vs → getitem adj v = Return (nbrs v)) → graph_of P G →
  ∃ G' : nx.Graph,
    GraphNx.to_networkx_loop adj vs G = Return G' ∧ graph_of (P ++ pairs nbrs vs) G'.
Proof.
  revert P G. induction vs as [|v vs IH]; intros P G Hget HG.
  - exists G. split; [done|]. unfold pairs. simpl. by rewrite app_nil_r.
  - cbn [GraphNx.to_networkx_loop]. rewrite (Hget v) by left. cbn [mbind result_bind].
    destruct (IH (P ++ ((λ w, (v, w)) <$> nbrs v)) (GraphNx.to_networkx_row v (nbrs v) G))
      as (G' & HG' & Hof).
    { intros u Hu. apply Hget. by right. }
    { by apply graph_of_row. }
    exists G'. split; [done|]. unfold pairs in *. by rewrite bind_cons, app_assoc.
Qed.

Lemma matrix_loop (adj : list (list bool)) (nbrs : Z → list Z) (vs : list Z)
    (P : list (Z * Z)) (G : nx.Graph) :
  (∀ v, v ∈ vs → ∃ row, getitem adj v = Return row ∧ nbrs v = AdjMatrixGraphNx.np_where row) →
  graph_of P G →
  ∃ G' : nx.Graph,
    AdjMatrixGraphNx.to_networkx_loop adj vs G = Return G' ∧ graph_of (P ++ pairs nbrs vs) G'.
Proof.
  revert P G. induction vs as [|v vs IH]; intros P G Hget HG.
  - exists G. split; [done|]. unfold pairs. simpl. by rewrite app_nil_r.
  - cbn [AdjMatrixGraphNx.to_networkx_loop].
    destruct (Hget v) as (row & -> & Hrow); [left|]. cbn [mbind result_bind].
    destruct (IH (P ++ ((λ w, (v, w)) <$> nbrs v))
                (GraphNx.to_networkx_row v (AdjMatrixGraphNx.np_where row) G))
      as (G' & HG' & Hof).
    { intros u Hu. apply Hget. by right. }
    { rewrite Hrow. by apply graph_of_row. }
    exists G'. split; [done|]. unfold pairs in *. by rewrite bind_cons, app_assoc.
Qed.

Lemma elem_of_pairs (nbrs : Z → list Z) (vs : list Z) (u x : Z) :
  (u, x) ∈ pairs nbrs vs ↔ u ∈ vs ∧ x ∈ nbrs u.
Proof.
  unfold pairs. rewrite list_elem_of_bind. split.
  - intros (v & Hin & Hv). apply list_elem_of_fmap in Hin as (w & [= -> ->] & Hw). done.
  - intros [Hu Hx]. exists u. split; [|done]. apply list_elem_of_fmap. by exists x.
Qed.

Lemma elem_of_where_from (k : Z) (row : list bool) (x : Z) :
  x ∈ AdjMatrixGraphNx.where_from k row ↔ k ≤ x ∧ row !! Z.to_nat (x - k) = Some true.
Proof.
  revert k. induction row as [|b row IH]; intros k.
  - simpl. rewrite elem_of_nil. split; [done|]. by intros [_ ?].
  - cbn [AdjMatrixGraphNx.where_from].
    assert (Hstep : ∀ P : Prop, (x = k ∧ b = true) ∨ x ∈ AdjMatrixGraphNx.where_from (k + 1) row
                    ↔ k ≤ x ∧ (b :: row) !! Z.to_nat (x - k) = Some true).
    { intros _. rewrite IH. split.
      - intros [[-> ->]|[Hk Hx]].
        + split; [lia|]. by replace (Z.to_nat (k - k)) with 0%nat by lia.
        + split; [lia|]. replace (Z.to_nat (x - k)) with (S (Z.to_nat (x - (k + 1)))) by lia.
          done.
      - intros [Hk Hx]. destruct (decide (x = k)) as [->|Hne].
        + left. replace (Z.to_nat (k - k)) with 0%nat in Hx by lia. simpl in Hx.
          by injection Hx as ->.
        + right. split; [lia|].
          replace (Z.to_nat (x - k)) with (S (Z.to_nat (x - (k + 1)))) in Hx by lia.
          done. }
    rewrite <-(Hstep True). destruct b.
    + rewrite elem_of_cons. tauto.
    + split; [tauto|]. by intros [[_ ?]|?].
Qed.

(** Two simple graphs of the same pairs, up to their order and their
    repetitions, are the same dictionary. *)
Lemma graph_of_unique (P Q : list (Z * Z)) (G H : nx.Graph) :
  graph_of P G → graph_of Q H →
  (∀ u x, (u, x) ∈ P ∨ (x, u) ∈ P ↔ (u, x) ∈ Q ∨ (x, u) ∈ Q) →
  G = H.
Proof.
  intros [HGe HGn] [HHe HHn] HPQ. apply map_eq. intros u.
  destruct (G !! u) as [s|] eqn:Hs; destruct (H !! u) as [t|] eqn:Ht.
  - f_equal. apply set_eq. intros x.
    specialize (HGe u x). specialize (HHe u x). unfold nx.has_edge in HGe, HHe.
    rewrite Hs in HGe. rewrite Ht in HHe. rewrite bool_decide_eq_true in HGe, HHe.
    rewrite HGe, HHe. apply HPQ.
  - assert (Hn : is_Some (H !! u)).
    { apply HHn. destruct (proj1 (HGn u)) as (x & Hx); [by rewrite Hs|].
      exists x. by apply HPQ. }
    rewrite Ht in Hn. by destruct Hn.
  - assert (Hn : is_Some (G !! u)).
    { apply HGn. destruct (proj1 (HHn u)) as (x & Hx); [by rewrite Ht|].
      exists x. by apply HPQ. }
    rewrite Hs in Hn. by destruct Hn.
  - done.
Qed.
End NxFacts.

Module NxHistory.

Lemma calls_in_range (n : Z) (calls : list (Z * Z)) (u x : Z) :
  Forall (in_range n) calls → (u, x) ∈ calls ∨ (x, u) ∈ calls →
  0 ≤ u < n ∧ 0 ≤ x < n.
Proof.
  intros Hcalls Hin. rewrite Forall_forall in Hcalls.
  destruct Hin as [Hin|Hin]; destruct (Hcalls _ Hin) as [H1 H2]; simpl in *; lia.
Qed.

(** The graph that [to_networkx] builds from the lists of a graph made
    by [calls]. *)
Lemma list_graph_of (n : Z) (g : Graph.t) (calls : list (Z * Z)) :
  Forall (in_range n) calls → V g = n →
  (∀ u : Z, 0 ≤ u < n → _adj g !! Z.to_nat u = Some (neighbours u calls)) →
  ∃ G : nx.Graph, GraphNx.to_networkx g = Return G ∧ graph_of calls G.
Proof.
  intros Hcalls HV Hrows. unfold GraphNx.to_networkx.
  destruct (NxFacts.list_loop (_adj g) (λ v, neighbours v calls) (range (V g)) [] nx.empty)
    as (G & HG & [Hedges Hnodes]).
  { intros v Hv. unfold range in Hv. apply elem_of_seqZ in Hv.
    apply getitem_in_range; [lia|]. apply Hrows. lia. }
  { apply NxFacts.graph_of_empty. }
  exists G. split; [exact HG|]. simpl in Hedges, Hnodes.
  assert (Hpairs : ∀ u x,
    (u, x) ∈ pairs (λ v, neighbours v calls) (range (V g))
    ∨ (x, u) ∈ pairs (λ v, neighbours v calls) (range (V g))
    ↔ (u, x) ∈ calls ∨ (x, u) ∈ calls).
  { intros u x. rewrite !NxFacts.elem_of_pairs, !MatrixCells.elem_of_neighbours.
    unfold range. rewrite !elem_of_seqZ. split; [tauto|].
    intros Hin. pose proof (calls_in_range n calls u x Hcalls Hin). left. split; [lia|done]. }
  split.
  - intros u x. by rewrite Hedges, Hpairs.
  - intros u. rewrite Hnodes. split; intros (x & Hx); exists x; by apply Hpairs.
Qed.

Lemma cell_true (adj : list (list bool)) (u x : Z) (row : list bool) :
  0 ≤ x → adj !! Z.to_nat u = Some row →
  cell adj u x = true ↔ row !! Z.to_nat x = Some true.
Proof.
  intros Hx Hrow. unfold cell. rewrite Hrow.
  destruct (row !! Z.to_nat x) as [[]|]; simpl; split; congruence.
Qed.

(** The graph that [to_networkx] builds from the matrix of a graph made
    by [calls]. *)
Lemma matrix_graph_of (n : Z) (g : AdjMatrixGraph.t) (calls : list (Z * Z)) :
  Forall (in_range n) calls → V g = n → AdjMatrixGraph.wf g →
  (∀ u x : Z, 0 ≤ u < n → 0 ≤ x < n →
     cell (_adj g) u x = bool_decide ((u, x) ∈ calls ∨ (x, u) ∈ calls)) →
  ∃ G : nx.Graph, AdjMatrixGraphNx.to_networkx g = Return G ∧ graph_of calls G.
Proof.
  intros Hcalls HV [Hlen Hrl] Hcells. unfold AdjMatrixGraphNx.to_networkx.
  set (nbrs := λ v : Z, AdjMatrixGraphNx.np_where (default [] (_adj g !! Z.to_nat v))).
  destruct (NxFacts.matrix_loop (_adj g) nbrs (range (V g)) [] nx.empty)
    as (G & HG & [Hedges Hnodes]).
  { intros v Hv. unfold range in Hv. apply elem_of_seqZ in Hv.
    destruct (lookup_lt_is_Some_2 (_adj g) (Z.to_nat v)) as [row Hrow]; [lia|].
    exists row. split; [apply getitem_in_range; [lia|done]|].
    unfold nbrs. by rewrite Hrow. }
  { apply NxFacts.graph_of_empty. }
  exists G. split; [exact HG|]. simpl in Hedges, Hnodes.
  assert (Hpair : ∀ u x,
    (u, x) ∈ pairs nbrs (range (V g))
    ↔ 0 ≤ u < n ∧ 0 ≤ x < n ∧ ((u, x) ∈ calls ∨ (x, u) ∈ calls)).
  { intros u x. rewrite NxFacts.elem_of_pairs. unfold range. rewrite elem_of_seqZ.
    unfold nbrs, AdjMatrixGraphNx.np_where. rewrite NxFacts.elem_of_where_from.
    replace (x - 0) with x by lia. split.
    - intros [Hu [Hx Hcell]].
      destruct (lookup_lt_is_Some_2 (_adj g) (Z.to_nat u)) as [row Hrow]; [lia|].
      rewrite Hrow in Hcell. simpl in Hcell.
      assert (Hxn : 0 ≤ x < n).
      { apply lookup_lt_Some in Hcell. rewrite Forall_lookup in Hrl.
        rewrite (Hrl _ _ Hrow) in Hcell. lia. }
      split; [lia|]. split; [done|].
      apply (cell_true _ u x row Hx Hrow) in Hcell.
      rewrite Hcells in Hcell by lia. by apply bool_decide_eq_true in Hcell.
    - intros (Hu & Hx & Hin). split; [lia|]. split; [lia|].
      destruct (lookup_lt_is_Some_2 (_adj g) (Z.to_nat u)) as [row Hrow]; [lia|].
      rewrite Hrow. simpl. apply (cell_true _ u x row (proj1 Hx) Hrow).
      rewrite Hcells by lia. by apply bool_decide_eq_true. }
  assert (Hpairs : ∀ u x,
    (u, x) ∈ pairs nbrs (range (V g)) ∨ (x, u) ∈ pairs nbrs (range (V g))
    ↔ (u, x) ∈ calls ∨ (x, u) ∈ calls).
  { intros u x. rewrite !Hpair. split; [tauto|].
    intros Hin. pose proof (calls_in_range n calls u x Hcalls Hin). tauto. }
  split.
  - intros u x. by rewrite Hedges, Hpairs.
  - intros u. rewrite Hnodes. split; intros (x & Hx); exists x; by apply Hpairs.
Qed.
End NxHistory.

(** X15. [to_networkx] on every adjacency-list graph reachable from the
    constructor returns a networkx graph in which [u] and [x] are joined
    exactly when [x] is an entry of the list of [u], however often it
    occurs there, and whose nodes are exactly the vertices with a list
    that is not empty: a vertex without edges is not a node of it. *)
Theorem list_to_networkx (n : Z) (g : Graph.t) :
  reachable n g →
  ∃ G : nx.Graph,
    GraphNx.to_networkx g = Return G ∧
    (∀ u x : Z, nx.has_edge G u x = true ↔
       0 ≤ u < n ∧ ∃ row, _adj g !! Z.to_nat u = Some row ∧ x ∈ row) ∧
    (∀ u : Z, is_Some (G !! u) ↔
       0 ≤ u < n ∧ ∃ row, _adj g !! Z.to_nat u = Some row ∧ row ≠ []).
Proof.
  intros Hreach.
  destruct (ListDegrees.reachable_rows n g Hreach) as (calls & Hcalls & _ & HV & _ & _ & Hrows).
  destruct (NxHistory.list_graph_of n g calls Hcalls HV Hrows) as (G & HG & [Hedges Hnodes]).
  exists G. split; [exact HG|]. split.
  - intros u x. rewrite Hedges, <-MatrixCells.elem_of_neighbours. split.
    + intros Hin.
      assert (Hu : 0 ≤ u < n).
      { apply MatrixCells.elem_of_neighbours in Hin.
        by destruct (NxHistory.calls_in_range n calls u x Hcalls Hin). }
      split; [done|]. exists (neighbours u calls). split; [by apply Hrows|done].
    + intros (Hu & row & Hrow & Hin). rewrite (Hrows u Hu) in Hrow. by injection Hrow as <-.
  - intros u. rewrite Hnodes. split.
    + intros (x & Hin).
      destruct (NxHistory.calls_in_range n calls u x Hcalls Hin) as [Hu _].
      split; [done|]. exists (neighbours u calls). split; [by apply Hrows|].
      apply MatrixCells.elem_of_neighbours in Hin. intros Hnil. rewrite Hnil in Hin.
      by apply elem_of_nil in Hin.
    + intros (Hu & row & Hrow & Hne). rewrite (Hrows u Hu) in Hrow. injection Hrow as <-.
      destruct (neighbours u calls) as [|x l] eqn:Hl; [done|].
      exists x. apply MatrixCells.elem_of_neighbours. rewrite Hl. left.
Qed.

Lemma list_to_networkx_witness :
  ∃ G : nx.Graph,
    GraphNx.to_networkx (add_edge 0 1 (Build_graph 3 0 [[]; []; []] : Graph.t)).2 = Return G ∧
    (∀ u x : Z, nx.has_edge G u x = true ↔
       0 ≤ u < 3 ∧ ∃ row,
         _adj (add_edge 0 1 (Build_graph 3 0 [[]; []; []] : Graph.t)).2 !! Z.to_nat u = Some row
         ∧ x ∈ row) ∧
    (∀ u : Z, is_Some (G !! u) ↔
       0 ≤ u < 3 ∧ ∃ row,
         _adj (add_edge 0 1 (Build_graph 3 0 [[]; []; []] : Graph.t)).2 !! Z.to_nat u = Some row
         ∧ row ≠ []).
Proof.
  apply (list_to_networkx 3). apply reachable_add_edge, reachable_init. reflexivity.
Defined.

(** X16. [to_networkx] on every matrix graph reachable from the
    constructor returns a networkx graph in which [u] and [x] are joined
    exactly when the cell of [u] and [x] is true, and whose nodes are
    exactly the vertices with a true cell in their row. *)
Theorem matrix_to_networkx (n : Z) (g : AdjMatrixGraph.t) :
  reachable n g →
  ∃ G : nx.Graph,
    AdjMatrixGraphNx.to_networkx g = Return G ∧
    (∀ u x : Z, nx.has_edge G u x = true ↔
       0 ≤ u < n ∧ 0 ≤ x < n ∧ cell (_adj g) u x = true) ∧
    (∀ u : Z, is_Some (G !! u) ↔
       ∃ x : Z, 0 ≤ u < n ∧ 0 ≤ x < n ∧ cell (_adj g) u x = true).
Proof.
  intros Hreach.
  destruct (MatrixCells.reachable_cells n g Hreach)
    as (calls & Hcalls & _ & HV & _ & Hwf & Hcells & _).
  destruct (NxHistory.matrix_graph_of n g calls Hcalls HV Hwf Hcells)
    as (G & HG & [Hedges Hnodes]).
  assert (Hcell : ∀ u x, (u, x) ∈ calls ∨ (x, u) ∈ calls
                         ↔ 0 ≤ u < n ∧ 0 ≤ x < n ∧ cell (_adj g) u x = true).
  { intros u x. split.
    - intros Hin. destruct (NxHistory.calls_in_range n calls u x Hcalls Hin) as [Hu Hx].
      split; [done|]. split; [done|]. rewrite Hcells by done. by apply bool_decide_eq_true.
    - intros (Hu & Hx & Hc). rewrite Hcells in Hc by done. by apply bool_decide_eq_true in Hc. }
  exists G. split; [exact HG|]. split.
  - intros u x. by rewrite Hedges, Hcell.
  - intros u. rewrite Hnodes. split; intros (x & Hx); exists x; by apply Hcell.
Qed.

Lemma matrix_to_networkx_witness :
  ∃ G : nx.Graph,
    AdjMatrixGraphNx.to_networkx
      (add_edge 0 1 (Build_graph 2 0 [[false; false]; [false; false]] : AdjMatrixGraph.t)).2
    = Return G ∧
    (∀ u x : Z, nx.has_edge G u x = true ↔
       0 ≤ u < 2 ∧ 0 ≤ x < 2 ∧
       cell (_adj (add_edge 0 1
                     (Build_graph 2 0 [[false; false]; [false; false]] : AdjMatrixGraph.t)).2)
         u x = true) ∧
    (∀ u : Z, is_Some (G !! u) ↔
       ∃ x : Z, 0 ≤ u < 2 ∧ 0 ≤ x < 2 ∧
       cell (_adj (add_edge 0 1
                     (Build_graph 2 0 [[false; false]; [false; false]] : AdjMatrixGraph.t)).2)
         u x = true).
Proof.
  apply (matrix_to_networkx 2). apply reachable_add_edge, reachable_init. reflexivity.
Defined.

(** X17. After the same calls of [add_edge], all with valid endpoints,
    on fresh graphs on [n] vertices, the two variants convert to the
    same networkx graph: the parallel edges that only the lists keep are
    lost in the conversion. *)
Theorem to_networkx_agree (n : Z) (calls : list (Z * Z)) :
  0 ≤ n → Forall (in_range n) calls →
  ∃ (l0 l : Graph.t) (m0 m : AdjMatrixGraph.t) (G : nx.Graph),
    init n = Return l0 ∧ add_edges calls l0 = (Return (), l) ∧
    init n = Return m0 ∧ add_edges calls m0 = (Return (), m) ∧
    GraphNx.to_networkx l = Return G ∧ AdjMatrixGraphNx.to_networkx m = Return G.
Proof.
  intros Hn Hcalls.
  pose proof (MatrixFacts.matrix_init_run n Hn) as Hinitm.
  destruct (MatrixCells.matrix_cells_after _ calls (MatrixFacts.matrix_init_wf n _ Hinitm) Hcalls)
    as (m & Hrunm & Hwfm & HVm & _ & Hcells & _).
  pose proof (History.list_fresh n) as Hinitl.
  destruct (History.list_rows_after _ calls (GraphFacts.init_wf n _ Hinitl) Hcalls)
    as (l & Hrunl & _ & HVl & _ & Hrows).
  destruct (NxHistory.list_graph_of n l calls Hcalls HVl) as (G & HG & HofG).
  { intros u Hu. rewrite (Hrows (Z.to_nat u) []) by (simpl; apply lookup_replicate_2; lia).
    by replace (Z.of_nat (Z.to_nat u)) with u by lia. }
  destruct (NxHistory.matrix_graph_of n m calls Hcalls HVm Hwfm) as (H & HH & HofH).
  { intros u x Hu Hx. rewrite Hcells by done. simpl. by rewrite MatrixCells.cell_fresh. }
  rewrite (NxFacts.graph_of_unique calls calls H G HofH HofG) in HH by done.
  eexists _, l, _, m, G.
  split; [exact Hinitl|]. split; [exact Hrunl|]. split; [exact Hinitm|].
  split; [exact Hrunm|]. split; [exact HG|exact HH].
Qed.

Lemma to_networkx_agree_witness :
  ∃ (l0 l : Graph.t) (m0 m : AdjMatrixGraph.t) (G : nx.Graph),
    init 3 = Return l0 ∧ add_edges [(0, 1); (1, 0); (2, 2)] l0 = (Return (), l) ∧
    init 3 = Return m0 ∧ add_edges [(0, 1); (1, 0); (2, 2)] m0 = (Return (), m) ∧
    GraphNx.to_networkx l = Return G ∧ AdjMatrixGraphNx.to_networkx m = Return G.
Proof.
  apply (to_networkx_agree 3 [(0, 1); (1, 0); (2, 2)]); [lia|].
  repeat constructor; simpl; lia.
Defined.

(** ** Writing and reading integers *)

Module StrFacts.















End StrFacts.

(** ** The text of a graph *)

Module RenderFacts.








End RenderFacts.




